(** * Line.js of new-train-tracker: the line pane's pure helpers and its render

    A shallow embedding of [src/components/Line.js].  JavaScript numbers are
    IEEE 754 binary64 values, so they are modelled by Rocq's primitive
    [float]s, whose operations are specified (module [FloatAxioms]) against
    the executable model [SpecFloat].  Strings are [string]s, arrays are
    [list]s held in a store when the code updates them in place, and a
    JavaScript object used as a table is an association list in the order
    [Object.entries] enumerates it.  What the file imports ([prerenderLine],
    [getTrainRoutePairsForLine], the [Train] component) enters as data: the
    geometry, the array of pairs, and the props of a train marker. *)

From Stdlib Require Import ZArith Lia Bool List String Ascii Floats.
From Stdlib Require Import Sorting.Sorted Sorting.Permutation.
Import ListNotations.

Set Warnings "-register-all,-inexact-float".

(** ** Data model *)

Module Train.
(** A train as this file reads it: [train.label] and [train.stationId]. *)
Record t := { label : string; stationId : string }.
Definition eqb (a b : t) : bool :=
    String.eqb (label a) (label b) && String.eqb (stationId a) (stationId b).
End Train.

Module Route.
(** A route is only handed on to the train marker. *)
Record t := { id : string }.
Definition eqb (a b : t) : bool := String.eqb (id a) (id b).
End Route.

Module Pair.
(** One [{ train, route }] object of [getTrainRoutePairsForLine]. *)
Record t := { train : Train.t; route : Route.t }.
Definition eqb (a b : t) : bool :=
    Train.eqb (train a) (train b) && Route.eqb (route a) (route b).
End Pair.

Module Position.
Record t := { x : float; y : float }.
End Position.

Module Bounds.
Record t := { top : float; bottom : float; left : float; right : float }.
End Bounds.

Module Station.
Record t := { name : string }.
End Station.

(** The [line] prop. [getStationLabelPosition] answers ['left'], ['right'] or
    nothing ([None]). *)
Module LineConfig.
Record t := {
    name : string;
    color : string;
    colorSecondary : string;
    getStationLabelPosition : string -> option string;
    shouldLabelTrain : Train.t -> bool
  }.
End LineConfig.

(** A JavaScript object used as a table from string keys: its own properties
    in the order [Object.entries] lists them.  The tables of this file are
    plain objects, whose prototype is [Object.prototype]; their own keys are
    station ids, none of which names a member of that prototype. *)
Definition Table (V : Type) : Type := list (string * V).

(** The own property [key] of [table], [None] when it has none.  This is
    what [table[key]] evaluates to for a key that is one of the table's own,
    as the key of an entry of [Object.entries] is, and for any key that names
    no inherited member. *)
Fixpoint get {V : Type} (table : Table V) (key : string) : option V :=
  match table with
  | [] => None
  | (k, v) :: rest => if String.eqb k key then Some v else get rest key
  end.

(** The members every plain object inherits from [Object.prototype]
    (ECMA-262, 20.1.3 and B.2.2): eleven functions, and the accessor
    [__proto__], which answers the prototype itself. *)
Definition Object_prototype : list string :=
  ["constructor"; "hasOwnProperty"; "isPrototypeOf"; "propertyIsEnumerable";
   "toLocaleString"; "toString"; "valueOf"; "__defineGetter__"; "__defineSetter__";
   "__lookupGetter__"; "__lookupSetter__"; "__proto__"]%string.

Definition inherited (key : string) : bool := existsb (String.eqb key) Object_prototype.

(** What [table[key]] evaluates to for an arbitrary key: the own property,
    else the inherited member of that name (a function or an object, hence
    truthy, and without any field of the table's values), else [undefined]. *)
Inductive Property (V : Type) :=
| Own (value : V)
| Inherited (name : string)
| Missing.

Arguments Own {V} value.
Arguments Inherited {V} name.
Arguments Missing {V}.

Definition read {V : Type} (table : Table V) (key : string) : Property V :=
  match get table key with
  | Some value => Own value
  | None => if inherited key then Inherited key else Missing
  end.

(** ** Strings *)

Fixpoint drop (n : nat) (s : string) : string :=
  match n, s with
  | O, _ => s
  | S _, EmptyString => EmptyString
  | S n', String _ s' => drop n' s'
  end.

(** [s.replace(pattern, replacement)] for a string pattern: the first
    occurrence only.  The replacements of this file hold no [$] sequence, so
    they are inserted as they are.  A string is its UTF-8 bytes here and its
    UTF-16 code units in JavaScript; the ASCII patterns of this file occur at
    the same places in both. *)
Fixpoint replace (pattern replacement s : string) : string :=
  if String.prefix pattern s then replacement ++ drop (String.length pattern) s
  else match s with
       | EmptyString => EmptyString
       | String c s' => String c (replace pattern replacement s')
       end.

(** Whether [pattern] occurs somewhere in [s]. *)
Fixpoint occurs (pattern s : string) : bool :=
  String.prefix pattern s
  || match s with
     | EmptyString => false
     | String _ s' => occurs pattern s'
     end.

Definition abbreviateStationName (station : string) : string :=
  replace "Heath Street" "Heath"
    (replace "Hynes Convention Center" "Hynes"
       (replace "Boston College" "B.C." station)).

(** ** The viewbox *)

Section Rendering.

(** [Number::toString], which a template literal applies to a number: the
    shortest decimal that reads back as the same binary64 value.  The model
    takes it as given. *)
Variable Number_toString : float -> string.

Local Open Scope string_scope.
Local Open Scope float_scope.

(** The four numbers [renderViewboxForBounds] computes before it formats them:
    [(minX, minY, width, height)]. *)
Definition viewboxNumbers (bounds : Bounds.t) : float * float * float * float :=
  let paddingTop := 5 in
  let paddingBottom := 10 in
  let paddingX := 50 in
  let width := Bounds.right bounds - Bounds.left bounds + paddingX * 2 in
  let height := Bounds.bottom bounds - Bounds.top bounds + paddingTop + paddingBottom in
  let minX := Bounds.left bounds - paddingX in
  let minY := Bounds.top bounds - paddingTop in
  (minX, minY, width, height).

Definition renderViewboxForBounds (bounds : Bounds.t) : string :=
  let '(minX, minY, width, height) := viewboxNumbers bounds in
  Number_toString minX ++ " " ++ Number_toString minY ++ " "
    ++ Number_toString width ++ " " ++ Number_toString height.

(** A call [f(a, ...rest)] of a function declared with one parameter: the
    surplus arguments are evaluated and bound to nothing. *)
Definition call_unary {A B Extra : Type} (f : A -> B) (a : A) (rest : list Extra) : B := f a.

(** The options object of the call in [Line]. *)
Record ViewboxOptions := { paddingX : float; paddingY : float }.

(** ** Ordering the trains *)

(** [Math.sqrt(x ** 2 + y ** 2)]; the square [x ** 2] is the product [x * x]. *)
Definition norm (p : Position.t) : float :=
  let x := Position.x p in
  let y := Position.y p in
  sqrt (x * x + y * y).

(** A [Map] with object keys, as the list of its entries in insertion order.
    Keys are compared by identity in JavaScript; here two pairs are the same
    key when all their fields agree, and such pairs are given the same
    distance below, so every lookup reads what the identity-keyed map holds. *)
Definition ObjectMap : Type := list (Pair.t * float).

Fixpoint Map_set (m : ObjectMap) (key : Pair.t) (value : float) : ObjectMap :=
  match m with
  | [] => [(key, value)]
  | (k, v) :: rest =>
      if Pair.eqb k key then (k, value) :: rest else (k, v) :: Map_set rest key value
  end.

(** [new Map(entries)] *)
Definition Map_new (entries : list (Pair.t * float)) : ObjectMap :=
  fold_left (fun m kv => Map_set m (fst kv) (snd kv)) entries [].

(** [map.get(key)], [None] for [undefined]. *)
Fixpoint Map_get (m : ObjectMap) (key : Pair.t) : option float :=
  match m with
  | [] => None
  | (k, v) :: rest => if Pair.eqb k key then Some v else Map_get rest key
  end.

(** [a - b] on what [Map.prototype.get] returns: [undefined] converts to NaN. *)
Definition subtract (a b : option float) : float :=
  match a, b with
  | Some a, Some b => a - b
  | _, _ => nan
  end.

(** SortCompare of ECMA-262 for a comparator and two defined elements: the
    comparator's result as a number, NaN read as +0 (steps 4.b and 4.c). *)
Definition nan_to_zero (v : float) : float := if is_nan v then 0 else v.

Definition SortCompare {A : Type} (comparefn : A -> A -> float) (x y : A) : float :=
  nan_to_zero (comparefn x y).

(** [Array.prototype.sort]: ECMA-262 asks for a stable sort, which for a
    consistent comparator fixes the result, and leaves the order to the
    engine otherwise (the result is a permutation of the array in any case).
    Insertion sort is one such sort: an element moves behind those it
    compares greater than zero with.  The comparator of this file is
    consistent when no distance is NaN; what is proved about the order of the
    result is proved for such arrays, and for arrays with a NaN distance only
    what holds of every permutation. *)
Fixpoint insert {A : Type} (comparefn : A -> A -> float) (item : A) (sorted : list A) : list A :=
  match sorted with
  | [] => [item]
  | next :: rest =>
      if 0 <? SortCompare comparefn item next
      then next :: insert comparefn item rest
      else item :: next :: rest
  end.

Definition Array_sort {A : Type} (comparefn : A -> A -> float) (items : list A) : list A :=
  fold_right (insert comparefn) [] items.

(** Arrays of pairs live in a store, so that sorting one in place is seen
    through every reference to it. *)
Definition ArrayRef : Type := nat.
Definition Heap : Type := ArrayRef -> list Pair.t.

Definition Heap_write (h : Heap) (a : ArrayRef) (items : list Pair.t) : Heap :=
  fun b => if Nat.eqb b a then items else h b.

(** The entry of [distanceMap] for one pair.  [train.stationId] comes with
    the live data and may be any string: when it names no own property but an
    inherited member, [station] is that member, which is truthy, its [x] and
    [y] read [undefined], and [undefined ** 2] is NaN. *)
Definition distanceEntry (stationPositions : Table Position.t) (pair : Pair.t) : Pair.t * float :=
  let train := Pair.train pair in
  match read stationPositions (Train.stationId train) with
  | Own station => let distance := norm station in (pair, distance)
  | Inherited _ =>
      let distance := norm {| Position.x := nan; Position.y := nan |} in (pair, distance)
  | Missing => (pair, 0)
  end.

Definition distanceMapOf (stationPositions : Table Position.t) (pairs : list Pair.t) : ObjectMap :=
  Map_new (map (distanceEntry stationPositions) pairs).

(** The array's elements after [pairs.sort(...)]. *)
Definition sortedByDistance (stationPositions : Table Position.t) (pairs : list Pair.t) : list Pair.t :=
  let distanceMap := distanceMapOf stationPositions pairs in
  Array_sort (fun a b => subtract (Map_get distanceMap a) (Map_get distanceMap b)) pairs.

(** [pairs.sort(...)] sorts the array in place and returns that same array. *)
Definition sortTrainRoutePairsByDistance
  (pairs : ArrayRef) (stationPositions : Table Position.t) (h : Heap) : ArrayRef * Heap :=
  (pairs, Heap_write h pairs (sortedByDistance stationPositions (h pairs))).

(** ** The station closest to the origin *)

Record Closest := { closestId : option string; shortestDistance : float }.

Definition closer (acc : Closest) (entry : string * Position.t) : Closest :=
  let '(nextId, nextPosition) := entry in
  let nextDistance := norm nextPosition in
  if nextDistance <? shortestDistance acc
  then {| closestId := Some nextId; shortestDistance := nextDistance |}
  else acc.

Definition findClosestStationToTop (stationPositions : Table Position.t) : option string :=
  closestId
    (fold_left closer stationPositions {| closestId := None; shortestDistance := infinity |}).

(** ** Styles *)

Definition Style : Type := Table string.

(** What destructuring [{ width, height }] can read. *)
Inductive Value := Undefined | Number (n : float).

(** What [renderRelativeStyles] is applied to: an object with the two
    fields, or a string, on which neither [width] nor [height] is a property. *)
Inductive Dimensions := Object (width height : Value) | Primitive (s : string).

Definition widthOf (d : Dimensions) : Value :=
  match d with Object width _ => width | Primitive _ => Undefined end.

Definition heightOf (d : Dimensions) : Value :=
  match d with Object _ height => height | Primitive _ => Undefined end.

(** [a > b]: [undefined] converts to NaN, and NaN compares false. *)
Definition greater (a b : Value) : bool :=
  match a, b with
  | Number a, Number b => b <? a
  | _, _ => false
  end.

Definition renderRelativeStyles (d : Dimensions) : Style :=
  let width := widthOf d in
  let height := heightOf d in
  if greater width height then [("width", "100%")] else [("height", "100%")].

(** [lineOffset] is [null] ([None]) until the first station has been measured. *)
Definition renderContainerStyles (lineOffset : option float) : Style :=
  match lineOffset with
  | Some lineOffset =>
      let negativeOffset := 0 - lineOffset in
      [("transform", "translateX(calc(" ++ Number_toString negativeOffset ++ "px + 40vw))")]
  | None => []
  end.

(** [{ ...a, ...b }]: the keys of [a] in their order, a value of [b] winning
    over the one of [a], then the keys only [b] has. *)
Definition spread (a b : Style) : Style :=
  (map (fun kv => match get b (fst kv) with Some v => (fst kv, v) | None => kv end) a
   ++ filter (fun kv => match get a (fst kv) with Some _ => false | None => true end) b)%list.

(** ** The rendered tree *)

Record Colors := { lines : string; newTrains : string; background : string }.

(** What [prerenderLine(line, stationsByRoute, routesInfo)] returns; the
    function itself lives in [../prerender]. *)
Record Prerendered := {
  pathDirective : string;
  bounds : Bounds.t;
  routes : list Route.t;
  stationPositions : Table Position.t;
  stations : Table Station.t
}.

(** The two refs of the component, and the DOM node a callback ref receives. *)
Inductive Ref := setContainer | firstStationRef.
Definition Container : Type := nat.

Inductive Attr :=
| AString (s : string)
| ANumber (n : float)
| AStyle (s : Style)
| ARef (r : Ref).

(** The props of one [<Train />]. *)
Record TrainProps := {
  focusOnMount : bool;
  key : string;
  trainOf : Train.t;
  routeOf : Route.t;
  colorsOf : Colors;
  alwaysLabelTrain : bool
}.

Inductive Element :=
| Text (s : string)
| Tag (tag : string) (attrs : list (string * Attr)) (children : list Element)
| TrainMarker (props : TrainProps)
| Provider (value : option Container) (children : list Element).

(** Whether an element with that tag name occurs in the tree. *)
Fixpoint hasTag (tag : string) (e : Element) : bool :=
  match e with
  | Text _ => false
  | Tag name _ children => String.eqb name tag || existsb (hasTag tag) children
  | TrainMarker _ => false
  | Provider _ children => existsb (hasTag tag) children
  end.

(** The attributes of the first element, in document order, with that tag
    name. *)
Fixpoint attributesOf (tag : string) (e : Element) : option (list (string * Attr)) :=
  let first :=
    fix first (elements : list Element) : option (list (string * Attr)) :=
      match elements with
      | [] => None
      | element :: rest =>
          match attributesOf tag element with
          | Some attrs => Some attrs
          | None => first rest
          end
      end in
  match e with
  | Text _ => None
  | Tag name attrs children => if String.eqb name tag then Some attrs else first children
  | TrainMarker _ => None
  | Provider _ children => first children
  end.

(** The attribute [name] of the first element with tag name [tag]. *)
Definition attributeOf (tag name : string) (e : Element) : option Attr :=
  match attributesOf tag e with
  | Some attrs => get attrs name
  | None => None
  end.

(** The props and the hook state a render reads.  [trainRoutePairs] is the
    array [getTrainRoutePairsForLine(trainsByRoute, routes)] returned (the
    function lives in [./util]); [prerendered] is the memoised geometry. *)
Record Props := {
  line : LineConfig.t;
  style : Style;
  prerendered : Prerendered;
  trainRoutePairs : ArrayRef
}.

Record State := {
  lineOffset : option float;
  shouldFocusOnFirstTrain : bool;
  container : option Container
}.

(** The two effects, as transitions of the hook state: the layout effect
    stores the measured [x] of the first station when there is one, the other
    sets the focus flag to [!hasTrains]. *)
Definition layoutEffect (measured : option float) (st : State) : State :=
  match measured with
  | Some x => {| lineOffset := Some x;
                 shouldFocusOnFirstTrain := shouldFocusOnFirstTrain st;
                 container := container st |}
  | None => st
  end.

Definition focusEffect (hasTrains : bool) (st : State) : State :=
  {| lineOffset := lineOffset st;
     shouldFocusOnFirstTrain := negb hasTrains;
     container := container st |}.

(** A string is truthy unless it is empty; [undefined] is falsy. *)
Definition truthy (s : option string) : bool :=
  match s with
  | Some s => negb (String.eqb s "")
  | None => false
  end.

Definition lowerAscii (c : ascii) : ascii :=
  let n := nat_of_ascii c in
  if Nat.leb 65 n && Nat.leb n 90 then ascii_of_nat (n + 32) else c.

(** [s.toLowerCase()] on the ASCII letters line names are made of. *)
Fixpoint toLowerCase (s : string) : string :=
  match s with
  | EmptyString => EmptyString
  | String c s' => String (lowerAscii c) (toLowerCase s')
  end.

(** [classNames(...)] of strings: the non-empty ones, joined by a space. *)
Definition classNames (names : list string) : string :=
  String.concat " " (filter (fun n => negb (String.eqb n "")) names).

Fixpoint mapi_from {A B : Type} (f : A -> nat -> B) (index : nat) (l : list A) : list B :=
  match l with
  | [] => []
  | a :: rest => f a index :: mapi_from f (S index) rest
  end.

(** [array.map((element, index) => ...)] *)
Definition mapi {A B : Type} (f : A -> nat -> B) (l : list A) : list B := mapi_from f O l.

Definition renderLine (pre : Prerendered) (colors : Colors) : Element :=
  Tag "path" [("d", AString (pathDirective pre)); ("stroke", AString (lines colors));
              ("fill", AString "transparent")] [].

Definition renderStation (config : LineConfig.t) (pre : Prerendered) (colors : Colors)
  (closestId : option string) (entry : string * Position.t) : Element :=
  let '(stationId, pos) := entry in
  let labelPosition := LineConfig.getStationLabelPosition config stationId in
  (* [stationId] is an own key of [stationPositions], so it names no
     inherited member and [stations[stationId]] is an own property or
     [undefined]. *)
  let stationName :=
    match get (stations pre) stationId with
    | Some station => Some (abbreviateStationName (Station.name station))
    | None => None
    end in
  let refProps :=
    match closestId with
    | Some closest => if String.eqb stationId closest then [("ref", ARef firstStationRef)] else []
    | None => []
    end in
  let isRight := match labelPosition with Some p => String.eqb p "right" | None => false end in
  let label :=
    if truthy labelPosition && truthy stationName
    then [Tag "text"
            [("aria-hidden", AString "true"); ("fontSize", ANumber 4);
             ("fill", AString (lines colors));
             ("textAnchor", AString (if isRight then "start" else "end"));
             ("x", ANumber (if isRight then 4 else -4)); ("y", ANumber 1.5)]
            [Text (match stationName with Some n => n | None => "" end)]]
    else [] in
  Tag "g"
    ([("key", AString stationId);
      ("transform", AString ("translate(" ++ Number_toString (Position.x pos) ++ ", "
                              ++ Number_toString (Position.y pos) ++ ")"))] ++ refProps)%list
    (Tag "circle" [("cx", ANumber 0); ("cy", ANumber 0); ("r", ANumber 1);
                   ("fill", AString (lines colors))] [] :: label).

Definition renderStations (config : LineConfig.t) (pre : Prerendered) (colors : Colors)
  : list Element :=
  let closestId := findClosestStationToTop (stationPositions pre) in
  map (renderStation config pre colors closestId) (stationPositions pre).

Definition renderTrain (config : LineConfig.t) (colors : Colors) (focusFirst : bool)
  (pair : Pair.t) (index : nat) : Element :=
  let train := Pair.train pair in
  let route := Pair.route pair in
  TrainMarker {| focusOnMount := focusFirst && Nat.eqb index 0;
                 key := Train.label train;
                 trainOf := train;
                 routeOf := route;
                 colorsOf := colors;
                 alwaysLabelTrain := LineConfig.shouldLabelTrain config train |}.

Definition renderTrains (props : Props) (st : State) (colors : Colors) (h : Heap)
  : list Element * Heap :=
  let '(sorted, h') :=
    sortTrainRoutePairsByDistance (trainRoutePairs props)
      (stationPositions (prerendered props)) h in
  (mapi (renderTrain (line props) colors (shouldFocusOnFirstTrain st)) (h' sorted), h').

(** The notice of a line without trains. *)
Definition emptyNotice (name : string) : string :=
  if String.eqb name "Red"
  then "New Red Line trains are expected later in 2020."
  else "No new trains on the " ++ name ++ " Line right now.".

(** The [viewbox] constant of the component: the call passes a second
    argument. *)
Definition viewboxOf (pre : Prerendered) : string :=
  call_unary renderViewboxForBounds (bounds pre) [{| paddingX := 500; paddingY := 5 |}].

(** [<svg viewBox={viewbox} style={renderRelativeStyles(viewbox)}>] *)
Definition svgElement (viewbox : string) (children : list Element) : Element :=
  Tag "svg"
    [("viewBox", AString viewbox);
     ("style", AStyle (renderRelativeStyles (Primitive viewbox)))]
    children.

(** One render of [Line]: the tree it returns and the store it leaves. *)
Definition Line (props : Props) (st : State) (h : Heap) : Element * Heap :=
  let config := line props in
  let pre := prerendered props in
  let colors := {| lines := "white";
                   newTrains := LineConfig.color config;
                   background := LineConfig.colorSecondary config |} in
  let viewbox := viewboxOf pre in
  if Nat.eqb (List.length (h (trainRoutePairs props))) 0
  then
    (Tag "div" [("className", AString "line-pane empty")]
       [Tag "div" [("className", AString "empty-notice")]
          [Text (emptyNotice (LineConfig.name config))]],
     h)
  else
    let path := renderLine pre colors in
    let stationMarkers := renderStations config pre colors in
    let '(trains, h') := renderTrains props st colors h in
    (Tag "div"
       [("role", AString "list");
        ("aria-label", AString ("New trains on the " ++ LineConfig.name config ++ " Line"));
        ("ref", ARef setContainer);
        ("className", AString (classNames ["line-pane"; toLowerCase (LineConfig.name config)]));
        ("style", AStyle (spread (renderContainerStyles (lineOffset st)) (style props)))]
       [Provider (container st)
          [svgElement viewbox (path :: stationMarkers ++ trains)%list]],
     h').

End Rendering.

(** ** Binary64 facts the comparator of [Array.prototype.sort] relies on *)

Module IEEE.

Local Open Scope Z_scope.

Abbreviation emin := (SpecFloat.emin prec emax).

(** A number that is not NaN and carries no minus sign: what
    [Math.sqrt(x ** 2 + y ** 2)] yields on numeric coordinates. *)
Definition nonneg (f : spec_float) : bool :=
  match f with
  | S754_zero false | S754_infinity false | S754_finite false _ _ => true
  | _ => false
  end.

(** Non-zero with the given sign: a finite value or an infinity. *)
Definition signed_nonzero (s : bool) (f : spec_float) : bool :=
  match f with
  | S754_finite s' _ _ | S754_infinity s' => Bool.eqb s s'
  | _ => false
  end.

(** Zero, finite or infinite with the given sign (never NaN). *)
Definition signed (s : bool) (f : spec_float) : bool :=
  match f with
  | S754_zero s' | S754_finite s' _ _ | S754_infinity s' => Bool.eqb s s'
  | S754_nan => false
  end.

Lemma digits2_pos_bounds (m : positive) :
  2 ^ (Zpos (digits2_pos m) - 1) <= Zpos m < 2 ^ Zpos (digits2_pos m).
Proof.
  induction m as [p IH | p IH |]; cbn [digits2_pos].
  - rewrite Pos2Z.inj_succ.
    replace (Z.succ (Zpos (digits2_pos p)) - 1) with (Z.succ (Zpos (digits2_pos p) - 1)) by lia.
    rewrite !Z.pow_succ_r by lia. lia.
  - rewrite Pos2Z.inj_succ.
    replace (Z.succ (Zpos (digits2_pos p)) - 1) with (Z.succ (Zpos (digits2_pos p) - 1)) by lia.
    rewrite !Z.pow_succ_r by lia. lia.
  - cbn. lia.
Qed.

Lemma shr_1_m (r : shr_record) :
  0 <= shr_m r -> shr_m (shr_1 r) = shr_m r / 2.
Proof.
  destruct r as [m r s]; cbn [shr_m shr_1]. intros Hm.
  destruct m as [| [p | p |] | p]; cbn [shr_m]; try lia.
  - reflexivity.
  - rewrite Pos2Z.inj_xI. apply Z.div_unique with (r := 1); lia.
  - rewrite Pos2Z.inj_xO. apply Z.div_unique with (r := 0); lia.
  - reflexivity.
Qed.

Lemma pow2_xO (k : positive) : 2 ^ Zpos k~0 = 2 ^ Zpos k * 2 ^ Zpos k.
Proof. rewrite <- Z.pow_add_r by lia. f_equal. lia. Qed.

Lemma pow2_xI (k : positive) : 2 ^ Zpos k~1 = 2 * (2 ^ Zpos k * 2 ^ Zpos k).
Proof. rewrite <- Z.pow_add_r, <- Z.pow_succ_r by lia. f_equal. lia. Qed.

Lemma shr_iter_m (k : positive) :
  forall r, 0 <= shr_m r -> shr_m (iter_pos shr_1 k r) = shr_m r / 2 ^ Zpos k.
Proof.
  induction k as [k IH | k IH |]; intros r Hr; cbn [iter_pos].
  - assert (H1 : 0 <= shr_m (shr_1 r)) by (rewrite shr_1_m by lia; apply Z.div_pos; lia).
    assert (H2 : 0 <= shr_m (iter_pos shr_1 k (shr_1 r)))
      by (rewrite IH by lia; apply Z.div_pos; [lia | apply Z.pow_pos_nonneg; lia]).
    assert (Hp : 0 < 2 ^ Zpos k) by (apply Z.pow_pos_nonneg; lia).
    rewrite IH, IH, shr_1_m by lia.
    rewrite !Z.div_div by lia.
    now rewrite pow2_xI.
  - assert (H2 : 0 <= shr_m (iter_pos shr_1 k r))
      by (rewrite IH by lia; apply Z.div_pos; [lia | apply Z.pow_pos_nonneg; lia]).
    assert (Hp : 0 < 2 ^ Zpos k) by (apply Z.pow_pos_nonneg; lia).
    rewrite IH, IH by lia.
    rewrite !Z.div_div by lia.
    now rewrite pow2_xO.
  - rewrite shr_1_m by lia. reflexivity.
Qed.

Lemma shr_record_of_loc_m (m : Z) (l : location) : shr_m (shr_record_of_loc m l) = m.
Proof. destruct l as [| []]; reflexivity. Qed.

Lemma round_nearest_even_ge (m : Z) (l : location) : m <= round_nearest_even m l.
Proof. destruct l as [| []]; cbn; try destruct (Z.even m); lia. Qed.

(** Shifting a mantissa to its format exponent never yields a negative one. *)
Lemma shr_fexp_nonneg (m e : Z) (l : location) :
  0 <= m -> 0 <= shr_m (fst (shr_fexp prec emax m e l)).
Proof.
  intros Hm. unfold shr_fexp, shr.
  destruct (fexp prec emax (Zdigits2 m + e) - e) as [| k | k]; cbn [fst];
    rewrite ?shr_iter_m, shr_record_of_loc_m by (rewrite shr_record_of_loc_m; lia); try lia.
  apply Z.div_pos; [lia | apply Z.pow_pos_nonneg; lia].
Qed.

(** At or above the least exponent the shift keeps a positive mantissa
    positive: a subtraction of two binary64 values cannot underflow. *)
Lemma shr_fexp_pos (m e : Z) (l : location) :
  0 < m -> emin <= e ->
  0 < shr_m (fst (shr_fexp prec emax m e l)) /\ emin <= snd (shr_fexp prec emax m e l).
Proof.
  intros Hm He. unfold shr_fexp, shr.
  destruct m as [| p | p]; try lia. cbn [Zdigits2].
  pose proof (digits2_pos_bounds p) as Hd.
  unfold fexp, SpecFloat.emin, prec, emax in *.
  destruct (Z.max (Zpos (digits2_pos p) + e - 53) (3 - 1024 - 53) - e) as [| k | k] eqn:Hn;
    cbn [fst snd]; rewrite ?shr_iter_m, shr_record_of_loc_m by (rewrite shr_record_of_loc_m; lia);
    try lia.
  split; [| lia].
  assert (Hk : Zpos k <= Zpos (digits2_pos p) - 1) by lia.
  assert (Hp : 2 ^ Zpos k <= Zpos p).
  { apply Z.le_trans with (2 ^ (Zpos (digits2_pos p) - 1)); [| lia].
    apply Z.pow_le_mono_r; lia. }
  assert (H2 : 0 < 2 ^ Zpos k) by (apply Z.pow_pos_nonneg; lia).
  apply Z.div_str_pos. lia.
Qed.

Lemma binary_round_aux_signed (s : bool) (m e : Z) (l : location) :
  0 <= m -> signed s (binary_round_aux prec emax s m e l) = true.
Proof.
  intros Hm. unfold binary_round_aux.
  pose proof (shr_fexp_nonneg m e l Hm) as H1.
  destruct (shr_fexp prec emax m e l) as [r1 e1]; cbn [fst] in H1.
  pose proof (round_nearest_even_ge (shr_m r1) (loc_of_shr_record r1)) as H2.
  pose proof (shr_fexp_nonneg (round_nearest_even (shr_m r1) (loc_of_shr_record r1)) e1 loc_Exact
                ltac:(lia)) as H3.
  destruct (shr_fexp prec emax _ e1 loc_Exact) as [r2 e2]; cbn [fst] in H3.
  destruct (shr_m r2) as [| p | p]; try lia; cbn.
  - apply Bool.eqb_reflx.
  - destruct (e2 <=? _); cbn; apply Bool.eqb_reflx.
Qed.

Lemma binary_round_aux_nonzero (s : bool) (m e : Z) (l : location) :
  0 < m -> emin <= e -> signed_nonzero s (binary_round_aux prec emax s m e l) = true.
Proof.
  intros Hm He. unfold binary_round_aux.
  pose proof (shr_fexp_pos m e l Hm He) as [H1 H1e].
  destruct (shr_fexp prec emax m e l) as [r1 e1]; cbn [fst snd] in H1, H1e.
  pose proof (round_nearest_even_ge (shr_m r1) (loc_of_shr_record r1)) as H2.
  pose proof (shr_fexp_pos (round_nearest_even (shr_m r1) (loc_of_shr_record r1)) e1 loc_Exact
                ltac:(lia) H1e) as [H3 _].
  destruct (shr_fexp prec emax _ e1 loc_Exact) as [r2 e2]; cbn [fst] in H3.
  destruct (shr_m r2) as [| p | p]; try lia; cbn.
  destruct (e2 <=? _); cbn; apply Bool.eqb_reflx.
Qed.

Lemma binary_round_nonzero (s : bool) (m : positive) (e : Z) :
  emin <= e -> signed_nonzero s (binary_round prec emax s m e) = true.
Proof.
  intros He. unfold binary_round, shl_align.
  assert (Hf : emin <= fexp prec emax (Zpos (digits2_pos m) + e))
    by (unfold fexp; lia).
  destruct (fexp prec emax (Zpos (digits2_pos m) + e) - e);
    apply binary_round_aux_nonzero; lia.
Qed.

(** What validity of a binary64 mantissa and exponent amounts to. *)
Lemma bounded_inv (m : positive) (e : Z) :
  bounded prec emax m e = true ->
  emin <= e /\ Zpos m < 2 ^ 53 /\ (e = emin \/ 2 ^ 52 <= Zpos m).
Proof.
  unfold bounded, canonical_mantissa, fexp, SpecFloat.emin, prec, emax.
  intros H. apply andb_prop in H as [H _]. apply Z.eqb_eq in H.
  pose proof (digits2_pos_bounds m) as [Hlo Hhi].
  assert (Hd : Zpos (digits2_pos m) <= 53) by lia.
  split; [lia |]. split.
  - apply Z.lt_le_trans with (2 ^ Zpos (digits2_pos m)); [lia |].
    apply Z.pow_le_mono_r; lia.
  - destruct (Z.eq_dec (Zpos (digits2_pos m)) 53) as [E | E].
    + right. rewrite E in Hlo. exact Hlo.
    + left. lia.
Qed.

Lemma shl_align_fst (m : positive) (e ez : Z) :
  ez <= e -> Zpos (fst (shl_align m e ez)) = Zpos m * 2 ^ (e - ez).
Proof.
  intros H. unfold shl_align.
  destruct (ez - e) as [| d | d] eqn:E; cbn [fst]; try lia.
  - replace (e - ez) with 0 by lia. lia.
  - replace (e - ez) with (Zpos d) by lia.
    change (Pos.iter xO m d) with (shift_pos d m).
    rewrite shift_pos_correct. change (Z.pow_pos 2 d) with (2 ^ Zpos d). lia.
Qed.

(** The order of two positive finite values: exponents first, then mantissas. *)
Definition mag_compare (ma : positive) (ea : Z) (mb : positive) (eb : Z) : comparison :=
  match ea ?= eb with
  | Lt => Lt
  | Gt => Gt
  | Eq => Pos.compare_cont Eq ma mb
  end.

(** On valid values that order is the order of the aligned mantissas, which is
    what a subtraction computes the sign of. *)
Lemma aligned_compare (ma : positive) (ea : Z) (mb : positive) (eb : Z) :
  bounded prec emax ma ea = true -> bounded prec emax mb eb = true ->
  (Zpos (fst (shl_align ma ea (Z.min ea eb))) ?= Zpos (fst (shl_align mb eb (Z.min ea eb))))
  = mag_compare ma ea mb eb.
Proof.
  intros Ha Hb.
  apply bounded_inv in Ha as (Hae & Hahi & Halo), Hb as (Hbe & Hbhi & Hblo).
  rewrite !shl_align_fst by lia. unfold mag_compare.
  destruct (Z.compare_spec ea eb) as [E | E | E].
  - subst eb. rewrite Z.min_id, Z.sub_diag, !Z.mul_1_r. reflexivity.
  - rewrite Z.min_l, Z.sub_diag, Z.mul_1_r by lia.
    apply Z.compare_lt_iff.
    assert (H2 : 2 ^ 1 <= 2 ^ (eb - ea)) by (apply Z.pow_le_mono_r; lia).
    change (2 ^ 1) with 2 in H2. nia.
  - rewrite Z.min_r, Z.sub_diag, Z.mul_1_r by lia.
    apply Z.compare_gt_iff.
    assert (H2 : 2 ^ 1 <= 2 ^ (ea - eb)) by (apply Z.pow_le_mono_r; lia).
    change (2 ^ 1) with 2 in H2. nia.
Qed.

Lemma signed_false_nonneg (f : spec_float) : signed false f = true -> nonneg f = true.
Proof. destruct f as [[] | [] | | [] ? ?]; cbn; congruence. Qed.

(** Squares, sums of non-negative numbers and their square roots are
    non-negative numbers. *)
Lemma mul_self_nonneg (a : spec_float) : a <> S754_nan -> nonneg (SF64mul a a) = true.
Proof.
  destruct a as [s | s | | s m e]; intros H; try congruence; cbn [SF64mul SFmul].
  - now destruct s.
  - now destruct s.
  - apply signed_false_nonneg. rewrite xorb_nilpotent.
    apply binary_round_aux_signed. lia.
Qed.

Lemma add_nonneg (a b : spec_float) :
  nonneg a = true -> nonneg b = true -> nonneg (SF64add a b) = true.
Proof.
  destruct a as [[] | [] | | [] ma ea]; try discriminate;
    destruct b as [[] | [] | | [] mb eb]; try discriminate; intros _ _; try reflexivity.
  cbn [SF64add SFadd cond_Zopp]. cbn [Z.add binary_normalize].
  apply signed_false_nonneg. unfold binary_round.
  destruct (shl_align _ _ _) as [mz ez]. apply binary_round_aux_signed. lia.
Qed.

Lemma sqrt_nonneg (a : spec_float) : nonneg a = true -> nonneg (SF64sqrt a) = true.
Proof.
  destruct a as [[] | [] | | [] m e]; try discriminate; intros _; try reflexivity.
  cbn [SF64sqrt SFsqrt]. unfold SFsqrt_core_binary.
  match goal with |- context [Z.sqrtrem ?n] =>
    pose proof (Z.sqrtrem_sqrt n) as Hq; pose proof (Z.sqrt_nonneg n) as Hn;
    destruct (Z.sqrtrem n) as [q r] end.
  cbn [fst] in Hq. apply signed_false_nonneg, binary_round_aux_signed. lia.
Qed.

Lemma SFcompare_swap (a b : spec_float) :
  SFcompare b a = option_map CompOpp (SFcompare a b).
Proof.
  destruct a as [[] | [] | | [] ma ea], b as [[] | [] | | [] mb eb]; cbn; try reflexivity;
    rewrite (Z.compare_antisym ea eb); destruct (ea ?= eb); cbn; try reflexivity;
    rewrite (Pos.compare_cont_antisym ma mb Eq); reflexivity.
Qed.

Lemma SFcompare_swap_leb (a b : spec_float) :
  SFleb b a = match SFcompare a b with Some (Gt | Eq) => true | _ => false end.
Proof. unfold SFleb. rewrite (SFcompare_swap a b). now destruct (SFcompare a b) as [[] |]. Qed.

(** The sign of a difference of two non-negative numbers is their order;
    equal numbers give zero, or NaN for infinity minus infinity. *)
Lemma sub_nonneg_sign (a b : spec_float) :
  nonneg a = true -> nonneg b = true -> valid_binary a = true -> valid_binary b = true ->
  match SFcompare a b with
  | Some Lt => signed_nonzero true (SF64sub a b) = true
  | Some Gt => signed_nonzero false (SF64sub a b) = true
  | Some Eq => SF64sub a b = S754_zero false \/ SF64sub a b = S754_nan
  | None => False
  end.
Proof.
  destruct a as [[] | [] | | [] ma ea]; try discriminate;
    destruct b as [[] | [] | | [] mb eb]; try discriminate; intros _ _ Ha Hb;
    try solve [cbn; auto].
  cbn [valid_binary] in Ha, Hb.
  pose proof (aligned_compare ma ea mb eb Ha Hb) as Hc.
  pose proof (bounded_inv _ _ Ha) as [Hae _]. pose proof (bounded_inv _ _ Hb) as [Hbe _].
  unfold mag_compare in Hc.
  set (za := Zpos (fst (shl_align ma ea (Z.min ea eb)))) in *.
  set (zb := Zpos (fst (shl_align mb eb (Z.min ea eb)))) in *.
  change (SFcompare (S754_finite false ma ea) (S754_finite false mb eb))
    with (Some (match ea ?= eb with Lt => Lt | Gt => Gt | Eq => Pos.compare_cont Eq ma mb end)).
  rewrite <- Hc.
  change (SF64sub (S754_finite false ma ea) (S754_finite false mb eb))
    with (binary_normalize prec emax (za - zb) (Z.min ea eb) false).
  destruct (Z.compare_spec za zb) as [E | E | E].
  - left. replace (za - zb) with 0 by lia. reflexivity.
  - destruct (za - zb) as [| p | p] eqn:Ed; try lia.
    cbn [binary_normalize]. apply binary_round_nonzero. lia.
  - destruct (za - zb) as [| p | p] eqn:Ed; try lia.
    cbn [binary_normalize]. apply binary_round_nonzero. lia.
Qed.

(** *** The order of non-negative numbers *)

Ltac destruct_nonneg f :=
  let m := fresh "m" in let e := fresh "e" in
  destruct f as [[] | [] | | [] m e]; try discriminate.

Ltac compare_cases :=
  repeat match goal with
  | |- context [Z.compare ?a ?b] => destruct (Z.compare_spec a b)
  | |- context [Pos.compare_cont Eq ?a ?b] =>
      change (Pos.compare_cont Eq a b) with (Pos.compare a b);
      destruct (Pos.compare_spec a b)
  end.

Ltac order_solve :=
  unfold SFltb, SFleb, SFeqb, SFcompare; compare_cases;
  intros; subst; try reflexivity; try discriminate; try lia.

Lemma SFltb_SFleb (a b : spec_float) : SFltb a b = true -> SFleb a b = true.
Proof. unfold SFltb, SFleb. now destruct (SFcompare a b) as [[] |]. Qed.

Lemma SFltb_not_SFleb (a b : spec_float) : SFltb a b = true -> SFleb b a = false.
Proof.
  unfold SFltb, SFleb. rewrite (SFcompare_swap a b).
  now destruct (SFcompare a b) as [[] |].
Qed.

Lemma SFleb_total (a b : spec_float) :
  nonneg a = true -> nonneg b = true -> SFltb b a = false -> SFleb a b = true.
Proof.
  unfold SFltb, SFleb. rewrite (SFcompare_swap a b).
  destruct_nonneg a; destruct_nonneg b; intros _ _; cbn; try reflexivity; try discriminate.
  now destruct (e ?= e0); cbn; try destruct (Pos.compare_cont Eq m m0).
Qed.

Lemma SFleb_trans (a b c : spec_float) :
  nonneg a = true -> nonneg b = true -> nonneg c = true ->
  SFleb a b = true -> SFleb b c = true -> SFleb a c = true.
Proof.
  destruct_nonneg a; destruct_nonneg b; destruct_nonneg c; intros _ _ _; order_solve.
Qed.

Lemma SFltb_trans (a b c : spec_float) :
  nonneg a = true -> nonneg b = true -> nonneg c = true ->
  SFltb a b = true -> SFltb b c = true -> SFltb a c = true.
Proof.
  destruct_nonneg a; destruct_nonneg b; destruct_nonneg c; intros _ _ _; order_solve.
Qed.

Lemma SFleb_SFltb_trans (a b c : spec_float) :
  nonneg a = true -> nonneg b = true -> nonneg c = true ->
  SFleb a b = true -> SFltb b c = true -> SFltb a c = true.
Proof.
  destruct_nonneg a; destruct_nonneg b; destruct_nonneg c; intros _ _ _; order_solve.
Qed.

(** Equal to a third number, two numbers are not strictly ordered. *)
Lemma SFltb_SFeqb_excl (a b c : spec_float) :
  nonneg a = true -> nonneg b = true ->
  SFltb a b = true -> SFeqb b c = true -> SFeqb a c = false.
Proof.
  destruct_nonneg a; destruct_nonneg b; intros _ _;
    destruct c as [[] | [] | | [] ? ?]; order_solve.
Qed.

Lemma SFleb_not_SFltb (a b : spec_float) : SFleb a b = true -> SFltb b a = false.
Proof.
  unfold SFltb, SFleb. rewrite (SFcompare_swap a b).
  now destruct (SFcompare a b) as [[] |].
Qed.

(** *** Differences of bounds and sums with a positive padding *)

(** Zero of either sign, or a positive number. *)
Definition at_least_zero (f : spec_float) : bool :=
  match f with
  | S754_zero _ | S754_infinity false | S754_finite false _ _ => true
  | _ => false
  end.

Definition finite_or_zero (f : spec_float) : bool :=
  match f with
  | S754_zero _ | S754_finite _ _ _ => true
  | _ => false
  end.

Lemma signed_nonzero_at_least_zero (f : spec_float) :
  signed_nonzero false f = true -> at_least_zero f = true.
Proof. destruct f as [? | [] | | [] ? ?]; cbn; congruence. Qed.

Lemma binary_normalize_at_least_zero (z e : Z) :
  0 <= z -> emin <= e -> at_least_zero (binary_normalize prec emax z e false) = true.
Proof.
  intros Hz He. destruct z as [| p | p]; try lia; cbn [binary_normalize].
  - reflexivity.
  - apply signed_nonzero_at_least_zero, binary_round_nonzero. exact He.
Qed.

(** [a - b] for finite [b <= a] is zero or positive, whatever the signs. *)
Lemma sub_le_at_least_zero (a b : spec_float) :
  finite_or_zero a = true -> finite_or_zero b = true ->
  valid_binary a = true -> valid_binary b = true ->
  SFleb b a = true -> at_least_zero (SF64sub a b) = true.
Proof.
  destruct a as [sa | sa | | sa ma ea]; try discriminate;
    destruct b as [sb | sb | | sb mb eb]; try discriminate; intros _ _ Ha Hb.
  - intros _. now destruct sa, sb.
  - destruct sb; cbn; congruence.
  - destruct sa; cbn; congruence.
  - cbn [valid_binary] in Ha, Hb.
    pose proof (aligned_compare ma ea mb eb Ha Hb) as Hc.
    pose proof (bounded_inv _ _ Ha) as [Hae _]. pose proof (bounded_inv _ _ Hb) as [Hbe _].
    rewrite (SFcompare_swap_leb (S754_finite sa ma ea) (S754_finite sb mb eb)).
    change (SF64sub (S754_finite sa ma ea) (S754_finite sb mb eb))
      with (binary_normalize prec emax
              (cond_Zopp sa (Zpos (fst (shl_align ma ea (Z.min ea eb))))
               - cond_Zopp sb (Zpos (fst (shl_align mb eb (Z.min ea eb)))))
              (Z.min ea eb) false).
    set (za := Zpos (fst (shl_align ma ea (Z.min ea eb)))) in *.
    set (zb := Zpos (fst (shl_align mb eb (Z.min ea eb)))) in *.
    assert (Hza : 0 < za) by (unfold za; lia).
    assert (Hzb : 0 < zb) by (unfold zb; lia).
    unfold mag_compare in Hc. intros H.
    apply binary_normalize_at_least_zero; [| lia].
    destruct sa, sb; cbn [cond_Zopp]; cbn in H; try lia; try discriminate.
    all: destruct (ea ?= eb); try discriminate.
    all: try (destruct (Pos.compare_cont Eq ma mb); try discriminate).
    all: pose proof (Z.compare_spec za zb) as Hs; rewrite Hc in Hs; inversion Hs; lia.
Qed.

(** Adding a positive padding to a number that is at least zero gives a
    positive number. *)
Lemma add_positive (a c : spec_float) :
  at_least_zero a = true -> valid_binary a = true ->
  signed_nonzero false c = true -> valid_binary c = true ->
  signed_nonzero false (SF64add a c) = true.
Proof.
  destruct a as [sa | [] | | [] ma ea]; try discriminate;
    destruct c as [sc | [] | | [] mc ec]; try discriminate; intros _ Ha _ Hc;
    try reflexivity.
  cbn [valid_binary] in Ha, Hc.
  pose proof (bounded_inv _ _ Ha) as [Hae _]. pose proof (bounded_inv _ _ Hc) as [Hce _].
  cbn [SF64add SFadd cond_Zopp]. cbn [Z.add binary_normalize].
  apply binary_round_nonzero. lia.
Qed.

End IEEE.

(** ** JavaScript numbers *)

Module Num.

Local Open Scope float_scope.

(** A number that is neither NaN nor negative (nor minus zero). *)
Definition Nonneg (d : float) : Prop := IEEE.nonneg (Prim2SF d) = true.

Lemma SFeqb_refl (a : spec_float) : a <> S754_nan -> SFeqb a a = true.
Proof.
  destruct a as [s | s | | s m e]; intros H; try congruence; try now destruct s.
  unfold SFeqb, SFcompare. rewrite Z.compare_refl.
  change (Pos.compare_cont Eq m m) with (Pos.compare m m). rewrite Pos.compare_refl.
  now destruct s.
Qed.

Lemma is_nan_false (x : float) : is_nan x = false <-> Prim2SF x <> S754_nan.
Proof.
  unfold is_nan. rewrite eqb_spec, negb_false_iff. split.
  - intros H E. rewrite E in H. discriminate.
  - apply SFeqb_refl.
Qed.

Lemma is_nan_true (x : float) : is_nan x = true <-> Prim2SF x = S754_nan.
Proof.
  split.
  - intros H. destruct (Prim2SF x) eqn:E; try reflexivity;
      assert (F : is_nan x = false) by (apply is_nan_false; rewrite E; discriminate);
      congruence.
  - intros E. destruct (is_nan x) eqn:F; [reflexivity |].
    apply is_nan_false in F. contradiction.
Qed.

Lemma Nonneg_not_nan (d : float) : Nonneg d -> is_nan d = false.
Proof.
  unfold Nonneg. intros H. apply is_nan_false. intros E. rewrite E in H. discriminate.
Qed.

Lemma Nonneg_zero : Nonneg 0.
Proof. reflexivity. Qed.

Lemma Nonneg_infinity : Nonneg infinity.
Proof. reflexivity. Qed.

(** [Math.sqrt(x * x + y * y)] of two numbers is a non-negative number. *)
Lemma Nonneg_norm (x y : float) :
  is_nan x = false -> is_nan y = false -> Nonneg (sqrt (x * x + y * y)).
Proof.
  intros Hx Hy. apply is_nan_false in Hx, Hy. unfold Nonneg.
  rewrite sqrt_spec, add_spec, !mul_spec.
  apply IEEE.sqrt_nonneg, IEEE.add_nonneg; now apply IEEE.mul_self_nonneg.
Qed.

Lemma Prim2SF_nan_to_zero (v : float) :
  Prim2SF (nan_to_zero v)
  = match Prim2SF v with S754_nan => S754_zero false | f => f end.
Proof.
  unfold nan_to_zero. destruct (is_nan v) eqn:E.
  - apply is_nan_true in E. rewrite E. reflexivity.
  - apply is_nan_false in E. now destruct (Prim2SF v).
Qed.

(** The comparator [a - b] of the sort orders two distances the way [<] does. *)
Lemma sub_sign (a b : float) :
  Nonneg a -> Nonneg b ->
  (0 <? nan_to_zero (a - b)) = (b <? a) /\ (nan_to_zero (a - b) <? 0) = (a <? b).
Proof.
  unfold Nonneg. intros Ha Hb.
  pose proof (IEEE.sub_nonneg_sign _ _ Ha Hb (Prim2SF_valid a) (Prim2SF_valid b)) as H.
  rewrite !ltb_spec, Prim2SF_nan_to_zero, sub_spec.
  change (Prim2SF 0) with (S754_zero false).
  unfold SFltb at 2 4. rewrite (IEEE.SFcompare_swap (Prim2SF a) (Prim2SF b)).
  destruct (SFcompare (Prim2SF a) (Prim2SF b)) as [[] |]; cbn [option_map CompOpp];
    try contradiction.
  - destruct H as [-> | ->]; split; reflexivity.
  - destruct (SF64sub (Prim2SF a) (Prim2SF b)) as [? | [] | | [] ? ?]; try discriminate;
      split; reflexivity.
  - destruct (SF64sub (Prim2SF a) (Prim2SF b)) as [? | [] | | [] ? ?]; try discriminate;
      split; reflexivity.
Qed.

(** *** The order on distances *)

Lemma ltb_leb (a b : float) : (a <? b) = true -> (a <=? b) = true.
Proof. rewrite ltb_spec, leb_spec. apply IEEE.SFltb_SFleb. Qed.

Lemma ltb_not_leb (a b : float) : (a <? b) = true -> (b <=? a) = false.
Proof. rewrite ltb_spec, leb_spec. apply IEEE.SFltb_not_SFleb. Qed.

Lemma leb_not_ltb (a b : float) : (a <=? b) = true -> (b <? a) = false.
Proof. rewrite ltb_spec, leb_spec. apply IEEE.SFleb_not_SFltb. Qed.

Lemma leb_total (a b : float) : Nonneg a -> Nonneg b -> (b <? a) = false -> (a <=? b) = true.
Proof. rewrite ltb_spec, leb_spec. apply IEEE.SFleb_total. Qed.

Lemma leb_trans (a b c : float) :
  Nonneg a -> Nonneg b -> Nonneg c ->
  (a <=? b) = true -> (b <=? c) = true -> (a <=? c) = true.
Proof. rewrite !leb_spec. apply IEEE.SFleb_trans. Qed.

Lemma ltb_trans (a b c : float) :
  Nonneg a -> Nonneg b -> Nonneg c ->
  (a <? b) = true -> (b <? c) = true -> (a <? c) = true.
Proof. rewrite !ltb_spec. apply IEEE.SFltb_trans. Qed.

Lemma leb_ltb_trans (a b c : float) :
  Nonneg a -> Nonneg b -> Nonneg c ->
  (a <=? b) = true -> (b <? c) = true -> (a <? c) = true.
Proof. rewrite !ltb_spec, leb_spec. apply IEEE.SFleb_SFltb_trans. Qed.

Lemma ltb_eqb_excl (a b c : float) :
  Nonneg a -> Nonneg b -> (a <? b) = true -> (b =? c) = true -> (a =? c) = false.
Proof. rewrite ltb_spec, !eqb_spec. apply IEEE.SFltb_SFeqb_excl. Qed.

(** A comparison that holds has numbers on both sides. *)
Lemma ltb_not_nan (a b : float) : (a <? b) = true -> is_nan a = false /\ is_nan b = false.
Proof.
  rewrite ltb_spec. intros H. split; apply is_nan_false; intros E; rewrite E in H;
    unfold SFltb in H; cbn in H; try discriminate.
  now destruct (Prim2SF a).
Qed.

Lemma leb_not_nan (a b : float) : (a <=? b) = true -> is_nan a = false /\ is_nan b = false.
Proof.
  rewrite leb_spec. intros H. split; apply is_nan_false; intros E; rewrite E in H;
    unfold SFleb in H; cbn in H; try discriminate.
  now destruct (Prim2SF a).
Qed.

(** The norm of a position is a non-negative number, or NaN when a
    coordinate is. *)
Lemma norm_cases (x y : float) :
  Nonneg (sqrt (x * x + y * y)) \/ is_nan (sqrt (x * x + y * y)) = true.
Proof.
  destruct (is_nan x) eqn:Hx; [right |].
  { apply is_nan_true in Hx. apply is_nan_true.
    rewrite sqrt_spec, add_spec, !mul_spec, Hx. reflexivity. }
  destruct (is_nan y) eqn:Hy; [right | left; now apply Nonneg_norm].
  apply is_nan_true in Hy. apply is_nan_true.
  rewrite sqrt_spec, add_spec, !mul_spec, Hy.
  now destruct (SF64mul (Prim2SF x) (Prim2SF x)).
Qed.

(** *** Bounds and paddings *)

Lemma is_finite_spec (x : float) :
  is_finite x = true -> IEEE.finite_or_zero (Prim2SF x) = true.
Proof.
  unfold is_finite, is_infinity. rewrite negb_true_iff, orb_false_iff.
  rewrite eqb_spec, abs_spec. intros [Hn Hi].
  apply is_nan_false in Hn.
  destruct (Prim2SF x) as [s | s | | s m e]; try reflexivity; try contradiction.
  discriminate Hi.
Qed.

Lemma positive_ltb (v : float) : IEEE.signed_nonzero false (Prim2SF v) = true -> (0 <? v) = true.
Proof.
  rewrite ltb_spec. change (Prim2SF 0) with (S754_zero false).
  now destruct (Prim2SF v) as [? | [] | | [] ? ?].
Qed.

(** [hi - lo + padding] is positive for finite [lo <= hi] and a positive
    padding. *)
Lemma padded_extent_positive (hi lo padding : float) :
  is_finite hi = true -> is_finite lo = true -> (lo <=? hi) = true ->
  IEEE.signed_nonzero false (Prim2SF padding) = true ->
  IEEE.signed_nonzero false (Prim2SF (hi - lo + padding)) = true.
Proof.
  intros Hh Hl Hle Hp. rewrite leb_spec in Hle.
  rewrite add_spec, sub_spec.
  apply IEEE.add_positive; trivial.
  - apply IEEE.sub_le_at_least_zero; auto using is_finite_spec, Prim2SF_valid.
  - rewrite <- sub_spec. apply Prim2SF_valid.
  - apply Prim2SF_valid.
Qed.

Lemma add_padding_positive (v padding : float) :
  IEEE.signed_nonzero false (Prim2SF v) = true ->
  IEEE.signed_nonzero false (Prim2SF padding) = true ->
  IEEE.signed_nonzero false (Prim2SF (v + padding)) = true.
Proof.
  intros Hv Hp. rewrite add_spec.
  apply IEEE.add_positive; auto using Prim2SF_valid, IEEE.signed_nonzero_at_least_zero.
Qed.

End Num.

(** ** [abbreviateStationName] *)

Module Abbreviate.

Local Open Scope string_scope.

(** Whether one of the three patterns occurs in a name. *)
Definition anyPattern (s : string) : bool :=
  occurs "Boston College" s || occurs "Hynes Convention Center" s || occurs "Heath Street" s.

Lemma length_append (s t : string) :
  String.length (s ++ t) = String.length s + String.length t.
Proof. induction s as [| c s IH]; cbn; [reflexivity | now rewrite IH]. Qed.

Lemma length_drop (n : nat) : forall s, String.length (drop n s) = String.length s - n.
Proof.
  induction n as [| n IH]; intros [| c s]; cbn; try lia. apply IH.
Qed.

Lemma prefix_length (p : string) : forall s, prefix p s = true -> String.length p <= String.length s.
Proof.
  induction p as [| a p IH]; intros [| b s]; cbn; intros H; try lia; try discriminate.
  destruct (ascii_dec a b); [| discriminate]. apply IH in H. lia.
Qed.

(** A name without the pattern is left as it is. *)
Lemma replace_absent (pattern replacement : string) :
  forall s, occurs pattern s = false -> replace pattern replacement s = s.
Proof.
  induction s as [| c s IH]; cbn; intros H; apply orb_false_iff in H as [Hp Hs]; rewrite Hp.
  - reflexivity.
  - now rewrite IH.
Qed.

(** Replacing the first occurrence trades the pattern's length for the
    replacement's. *)
Lemma length_replace (pattern replacement : string) :
  forall s, occurs pattern s = true ->
  String.length (replace pattern replacement s) + String.length pattern
  = String.length s + String.length replacement.
Proof.
  induction s as [| c s IH]; cbn [occurs replace]; intros H.
  - rewrite orb_false_r in H. rewrite H. rewrite length_append, length_drop.
    apply prefix_length in H. lia.
  - destruct (prefix pattern (String c s)) eqn:Hp.
    + rewrite length_append, length_drop. apply prefix_length in Hp. lia.
    + cbn in H |- *. rewrite IH by exact H. lia.
Qed.

Lemma length_replace_le (pattern replacement s : string) :
  String.length replacement <= String.length pattern ->
  String.length (replace pattern replacement s) <= String.length s.
Proof.
  intros Hl. destruct (occurs pattern s) eqn:H.
  - pose proof (length_replace pattern replacement s H). lia.
  - now rewrite replace_absent.
Qed.

Lemma length_replace_lt (pattern replacement s : string) :
  String.length replacement < String.length pattern -> occurs pattern s = true ->
  String.length (replace pattern replacement s) < String.length s.
Proof. intros Hl H. pose proof (length_replace pattern replacement s H). lia. Qed.

Lemma abbreviate_absent (s : string) : anyPattern s = false -> abbreviateStationName s = s.
Proof.
  unfold anyPattern, abbreviateStationName. intros H.
  apply orb_false_iff in H as [H H3]. apply orb_false_iff in H as [H1 H2].
  now rewrite (replace_absent _ _ s H1), (replace_absent _ _ s H2), (replace_absent _ _ s H3).
Qed.

(** A name the abbreviation leaves as it is holds none of the patterns:
    every replacement is shorter than its pattern. *)
Lemma abbreviate_fixed (s : string) : abbreviateStationName s = s -> anyPattern s = false.
Proof.
  unfold anyPattern, abbreviateStationName. intros H.
  apply (f_equal String.length) in H.
  set (s1 := replace "Boston College" "B.C." s) in *.
  set (s2 := replace "Hynes Convention Center" "Hynes" s1) in *.
  assert (L1 : String.length s1 <= String.length s) by (apply length_replace_le; cbn; lia).
  assert (L2 : String.length s2 <= String.length s1) by (apply length_replace_le; cbn; lia).
  assert (L3 : String.length (replace "Heath Street" "Heath" s2) <= String.length s2)
    by (apply length_replace_le; cbn; lia).
  destruct (occurs "Boston College" s) eqn:H1.
  { pose proof (length_replace_lt "Boston College" "B.C." s ltac:(cbn; lia) H1). fold s1 in H0. lia. }
  assert (E1 : s1 = s) by (apply replace_absent; exact H1).
  destruct (occurs "Hynes Convention Center" s) eqn:H2.
  { rewrite <- E1 in H2.
    pose proof (length_replace_lt "Hynes Convention Center" "Hynes" s1 ltac:(cbn; lia) H2).
    fold s2 in H0. lia. }
  assert (E2 : s2 = s) by (unfold s2; rewrite E1; apply replace_absent; exact H2).
  destruct (occurs "Heath Street" s) eqn:H3; [| reflexivity].
  rewrite <- E2 in H3.
  pose proof (length_replace_lt "Heath Street" "Heath" s2 ltac:(cbn; lia) H3). lia.
Qed.

End Abbreviate.

(** ** [Array.prototype.sort] with a numeric key *)

Section Sort.

Context {A : Type}.

Lemma insert_perm (comparefn : A -> A -> float) (item : A) (sorted : list A) :
  Permutation (item :: sorted) (insert comparefn item sorted).
Proof.
  induction sorted as [| next rest IH]; cbn [insert]; [reflexivity |].
  destruct (_ <? _)%float; [| reflexivity].
  rewrite perm_swap. now apply perm_skip.
Qed.

Lemma Array_sort_cons (comparefn : A -> A -> float) (item : A) (rest : list A) :
  Array_sort comparefn (item :: rest) = insert comparefn item (Array_sort comparefn rest).
Proof. reflexivity. Qed.

Lemma Array_sort_perm (comparefn : A -> A -> float) (items : list A) :
  Permutation items (Array_sort comparefn items).
Proof.
  induction items as [| item rest IH]; [reflexivity |].
  rewrite Array_sort_cons, <- insert_perm. now apply perm_skip.
Qed.

Lemma Array_sort_In (comparefn : A -> A -> float) (items : list A) (a : A) :
  In a (Array_sort comparefn items) <-> In a items.
Proof.
  split; apply Permutation_in; [symmetry |]; apply Array_sort_perm.
Qed.

Lemma insert_ext (f g : A -> A -> float) (item : A) (sorted : list A) :
  (forall b, In b sorted -> f item b = g item b) ->
  insert f item sorted = insert g item sorted.
Proof.
  induction sorted as [| next rest IH]; intros H; cbn [insert]; [reflexivity |].
  unfold SortCompare. rewrite (H next) by now left.
  rewrite IH by (intros b Hb; apply H; now right). reflexivity.
Qed.

(** The sort only consults the comparator on elements of the array. *)
Lemma Array_sort_ext (f g : A -> A -> float) (items : list A) :
  (forall a b, In a items -> In b items -> f a b = g a b) ->
  Array_sort f items = Array_sort g items.
Proof.
  induction items as [| item rest IH]; intros H; [reflexivity |].
  rewrite !Array_sort_cons, IH by (intros a b Ha Hb; apply H; now right).
  apply insert_ext. intros b Hb. apply H; [now left | right].
  now apply (Array_sort_In g rest b).
Qed.

Variable key : A -> float.
Hypothesis key_Nonneg : forall a, Num.Nonneg (key a).

Local Open Scope float_scope.

(** The comparator [(a, b) => key(a) - key(b)]. *)
Definition byKey (a b : A) : float := key a - key b.

Definition ascending : list A -> Prop :=
  StronglySorted (fun a b => (key a <=? key b) = true).

Lemma greater_spec (a b : A) : (0 <? SortCompare byKey a b) = (key b <? key a).
Proof. unfold SortCompare, byKey. now apply Num.sub_sign. Qed.

Lemma insert_Forall (P : A -> Prop) (item : A) (sorted : list A) :
  P item -> Forall P sorted -> Forall P (insert byKey item sorted).
Proof.
  intros Hi Hs. apply (Permutation_Forall (insert_perm byKey item sorted)). now constructor.
Qed.

Lemma insert_ascending (item : A) (sorted : list A) :
  ascending sorted -> ascending (insert byKey item sorted).
Proof.
  unfold ascending.
  induction sorted as [| next rest IH]; intros Hs; cbn [insert].
  - repeat constructor.
  - apply StronglySorted_inv in Hs as [Hrest Hnext].
    rewrite greater_spec. destruct (key next <? key item) eqn:E.
    + constructor; [now apply IH |].
      apply insert_Forall; [now apply Num.ltb_leb | exact Hnext].
    + assert (Hle : (key item <=? key next) = true) by now apply Num.leb_total.
      constructor; [now constructor |].
      constructor; [exact Hle |].
      eapply Forall_impl; [| exact Hnext]. cbn. intros c Hc.
      now apply Num.leb_trans with (key next).
Qed.

Lemma Array_sort_ascending (items : list A) : ascending (Array_sort byKey items).
Proof.
  induction items as [| item rest IH].
  - constructor.
  - rewrite Array_sort_cons. now apply insert_ascending.
Qed.

(** Stability: an element only moves behind elements with a smaller key, so
    the elements of one key keep their order. *)
Lemma insert_filter (c : float) (item : A) (sorted : list A) :
  filter (fun a => key a =? c) (insert byKey item sorted)
  = filter (fun a => key a =? c) (item :: sorted).
Proof.
  induction sorted as [| next rest IH]; cbn [insert]; [reflexivity |].
  rewrite greater_spec. destruct (key next <? key item) eqn:E; [| reflexivity].
  cbn [filter] in *. rewrite IH.
  destruct (key item =? c) eqn:Ei; [| reflexivity].
  now rewrite (Num.ltb_eqb_excl (key next) (key item) c).
Qed.

Lemma Array_sort_stable (c : float) (items : list A) :
  filter (fun a => key a =? c) (Array_sort byKey items) = filter (fun a => key a =? c) items.
Proof.
  induction items as [| item rest IH]; [reflexivity |].
  rewrite Array_sort_cons, insert_filter. cbn [filter]. now rewrite IH.
Qed.

End Sort.

(** ** The distances [sortTrainRoutePairsByDistance] sorts by *)

Module Distance.

Local Open Scope float_scope.

(** The distance the code computes for one pair. *)
Definition distanceOf (stationPositions : Table Position.t) (pair : Pair.t) : float :=
  snd (distanceEntry stationPositions pair).

(** Whether the distance of every pair is a number: no train stands at a
    station with a NaN coordinate, and no train's station id names only an
    inherited member. *)
Definition numericDistances (stationPositions : Table Position.t) (pairs : list Pair.t) : bool :=
  forallb (fun pair => negb (is_nan (distanceOf stationPositions pair))) pairs.

(** The distance as the sort reads it when it is NaN. *)
Definition distanceOr0 (stationPositions : Table Position.t) (pair : Pair.t) : float :=
  nan_to_zero (distanceOf stationPositions pair).

Lemma Train_eqb_eq (a b : Train.t) : Train.eqb a b = true <-> a = b.
Proof.
  destruct a, b. unfold Train.eqb. cbn.
  rewrite andb_true_iff, !String.eqb_eq. split; [intros [-> ->] | intros [= -> ->]]; auto.
Qed.

Lemma Pair_eqb_eq (a b : Pair.t) : Pair.eqb a b = true <-> a = b.
Proof.
  destruct a as [ta ra], b as [tb rb]. unfold Pair.eqb, Route.eqb. cbn.
  rewrite andb_true_iff, Train_eqb_eq, String.eqb_eq. destruct ra, rb; cbn.
  split; [intros [-> ->] | intros [= -> ->]]; auto.
Qed.

Lemma Pair_eqb_refl (a : Pair.t) : Pair.eqb a a = true.
Proof. now apply Pair_eqb_eq. Qed.

Lemma Map_get_set (m : ObjectMap) (k : Pair.t) (v : float) (k' : Pair.t) :
  Map_get (Map_set m k v) k' = if Pair.eqb k k' then Some v else Map_get m k'.
Proof.
  induction m as [| [k0 v0] rest IH]; cbn [Map_set Map_get]; [reflexivity |].
  destruct (Pair.eqb k0 k) eqn:E0; cbn [Map_get].
  - apply Pair_eqb_eq in E0. subst k0. now destruct (Pair.eqb k k').
  - rewrite IH. destruct (Pair.eqb k0 k') eqn:E1; [| reflexivity].
    apply Pair_eqb_eq in E1. subst k'.
    destruct (Pair.eqb k k0) eqn:E2; [| reflexivity].
    apply Pair_eqb_eq in E2. subst k0. rewrite Pair_eqb_refl in E0. discriminate.
Qed.

Lemma Map_get_fold (stationPositions : Table Position.t) (k : Pair.t) (pairs : list Pair.t) :
  forall m,
  Map_get (fold_left (fun m kv => Map_set m (fst kv) (snd kv))
             (map (distanceEntry stationPositions) pairs) m) k
  = if existsb (Pair.eqb k) pairs then Some (distanceOf stationPositions k) else Map_get m k.
Proof.
  induction pairs as [| pair rest IH]; intros m; cbn [map fold_left existsb]; [reflexivity |].
  rewrite IH, Map_get_set.
  destruct (existsb (Pair.eqb k) rest); [now rewrite orb_true_r |]. rewrite orb_false_r.
  replace (fst (distanceEntry stationPositions pair)) with pair
    by (unfold distanceEntry; now destruct (read _ _)).
  destruct (Pair.eqb pair k) eqn:E.
  - apply Pair_eqb_eq in E. subst k. now rewrite Pair_eqb_refl.
  - destruct (Pair.eqb k pair) eqn:E'; [| reflexivity].
    apply Pair_eqb_eq in E'. subst k. rewrite Pair_eqb_refl in E. discriminate.
Qed.

(** Every pair of the array finds its own distance in [distanceMap]. *)
Lemma Map_get_distanceMap (stationPositions : Table Position.t) (pairs : list Pair.t) (k : Pair.t) :
  In k pairs ->
  Map_get (distanceMapOf stationPositions pairs) k = Some (distanceOf stationPositions k).
Proof.
  intros Hk. unfold distanceMapOf, Map_new. rewrite Map_get_fold.
  replace (existsb (Pair.eqb k) pairs) with true; [reflexivity |].
  symmetry. apply existsb_exists. exists k. split; [exact Hk | apply Pair_eqb_refl].
Qed.

(** So the array is sorted with the comparator [distance(a) - distance(b)]. *)
Lemma sortedByDistance_byKey (stationPositions : Table Position.t) (pairs : list Pair.t) :
  sortedByDistance stationPositions pairs
  = Array_sort (byKey (distanceOf stationPositions)) pairs.
Proof.
  unfold sortedByDistance. apply Array_sort_ext. intros a b Ha Hb.
  now rewrite !Map_get_distanceMap.
Qed.

Lemma distanceOf_cases (stationPositions : Table Position.t) (pair : Pair.t) :
  Num.Nonneg (distanceOf stationPositions pair)
  \/ is_nan (distanceOf stationPositions pair) = true.
Proof.
  unfold distanceOf, distanceEntry.
  destruct (read stationPositions (Train.stationId (Pair.train pair))) as [station | name |];
    cbn [snd]; [apply Num.norm_cases | right; reflexivity | left; exact Num.Nonneg_zero].
Qed.

Lemma distanceOr0_Nonneg (stationPositions : Table Position.t) (pair : Pair.t) :
  Num.Nonneg (distanceOr0 stationPositions pair).
Proof.
  unfold distanceOr0, nan_to_zero.
  destruct (distanceOf_cases stationPositions pair) as [H | H].
  - now rewrite (Num.Nonneg_not_nan _ H).
  - rewrite H. exact Num.Nonneg_zero.
Qed.

Lemma distanceOr0_numeric (stationPositions : Table Position.t) (pairs : list Pair.t) :
  numericDistances stationPositions pairs = true ->
  forall pair, In pair pairs ->
  distanceOr0 stationPositions pair = distanceOf stationPositions pair.
Proof.
  unfold numericDistances. rewrite forallb_forall. intros H pair Hin.
  specialize (H pair Hin). apply negb_true_iff in H.
  unfold distanceOr0, nan_to_zero. now rewrite H.
Qed.


Lemma Heap_write_same (h : Heap) (a : ArrayRef) (items : list Pair.t) :
  Heap_write h a items a = items.
Proof. unfold Heap_write. now rewrite Nat.eqb_refl. Qed.

Lemma StronglySorted_ext_in {A : Type} (R R' : A -> A -> Prop) (l : list A) :
  (forall a b, In a l -> In b l -> R a b -> R' a b) ->
  StronglySorted R l -> StronglySorted R' l.
Proof.
  induction l as [| a l IH]; intros H Hs; [constructor |].
  apply StronglySorted_inv in Hs as [Hs Hall]. constructor.
  - apply IH; [| exact Hs]. intros b c Hb Hc. apply H; now right.
  - rewrite Forall_forall in *. intros b Hb. apply H; [now left | now right | now apply Hall].
Qed.

(** With numeric distances the array comes out as a permutation in ascending
    order of distance, the pairs of one distance in their input order. *)
Lemma sortedByDistance_spec (stationPositions : Table Position.t) (pairs : list Pair.t) :
  numericDistances stationPositions pairs = true ->
  Permutation pairs (sortedByDistance stationPositions pairs)
  /\ StronglySorted
       (fun a b => (distanceOf stationPositions a <=? distanceOf stationPositions b) = true)
       (sortedByDistance stationPositions pairs)
  /\ (forall c,
        filter (fun p => distanceOf stationPositions p =? c)
          (sortedByDistance stationPositions pairs)
        = filter (fun p => distanceOf stationPositions p =? c) pairs).
Proof.
  intros Hnum. pose proof (distanceOr0_numeric _ _ Hnum) as Heq.
  rewrite sortedByDistance_byKey.
  assert (Hsort : Array_sort (byKey (distanceOf stationPositions)) pairs
                  = Array_sort (byKey (distanceOr0 stationPositions)) pairs).
  { apply Array_sort_ext. intros a b Ha Hb. unfold byKey. now rewrite !Heq. }
  rewrite Hsort.
  assert (Hmem : forall a, In a (Array_sort (byKey (distanceOr0 stationPositions)) pairs) ->
                           distanceOr0 stationPositions a = distanceOf stationPositions a).
  { intros a Ha. apply Heq. now apply Array_sort_In in Ha. }
  split; [apply Array_sort_perm |]. split.
  - apply StronglySorted_ext_in
      with (R := fun a b => (distanceOr0 stationPositions a
                              <=? distanceOr0 stationPositions b) = true).
    + intros a b Ha Hb. now rewrite !Hmem.
    + apply Array_sort_ascending. apply distanceOr0_Nonneg.
  - intros c.
    rewrite (filter_ext_in (fun p => distanceOf stationPositions p =? c)
               (fun p => distanceOr0 stationPositions p =? c)
               (Array_sort (byKey (distanceOr0 stationPositions)) pairs))
      by (intros a Ha; now rewrite Hmem).
    rewrite (filter_ext_in (fun p => distanceOf stationPositions p =? c)
               (fun p => distanceOr0 stationPositions p =? c) pairs)
      by (intros a Ha; now rewrite Heq).
    apply Array_sort_stable. apply distanceOr0_Nonneg.
Qed.

(** The distance by the station id: the norm of the own position, NaN for
    the name of an inherited member, 0 for any other id. *)
Lemma distanceOf_read (stationPositions : Table Position.t) (pair : Pair.t) :
  distanceOf stationPositions pair
  = match get stationPositions (Train.stationId (Pair.train pair)) with
    | Some station => norm station
    | None => if inherited (Train.stationId (Pair.train pair)) then nan else 0
    end.
Proof.
  unfold distanceOf, distanceEntry, read.
  destruct (get stationPositions _); [reflexivity |].
  now destruct (inherited _).
Qed.


End Distance.

(** ** The scan of [findClosestStationToTop] *)

Module Scan.

Local Open Scope float_scope.

Definition Entry : Type := (string * Position.t)%type.

(** What the accumulator of the [reduce] holds once [done] has been scanned:
    nothing below [Infinity] so far, or the first entry that no entry beats. *)
Definition scanned (done : list Entry) (acc : Closest) : Prop :=
  (closestId acc = None /\ shortestDistance acc = infinity
   /\ Forall (fun e => (norm (snd e) <? infinity) = false) done)
  \/ (exists before id p after,
        done = before ++ (id, p) :: after
        /\ closestId acc = Some id /\ shortestDistance acc = norm p
        /\ (norm p <? infinity) = true
        /\ Forall (fun e => (norm (snd e) <=? norm p) = false) before
        /\ Forall (fun e => (norm (snd e) <? norm p) = false) after).

Lemma norm_Nonneg (p : Position.t) : is_nan (norm p) = false -> Num.Nonneg (norm p).
Proof.
  intros H. destruct (Num.norm_cases (Position.x p) (Position.y p)) as [Hn | Hn]; [exact Hn |].
  unfold norm in H. cbn zeta in H. congruence.
Qed.

(** An entry at most a distance that beats the bound beats the bound too. *)
Lemma below_bound (p q : Position.t) (bound : float) :
  Num.Nonneg bound -> (norm q <? bound) = true -> (norm p <=? norm q) = true ->
  (norm p <? bound) = true.
Proof.
  intros Hb Hq Hp.
  apply Num.leb_not_nan in Hp as Hnan. destruct Hnan as [Hp1 Hq1].
  apply Num.leb_ltb_trans with (norm q); auto using norm_Nonneg.
Qed.

Lemma scanned_step (done : list Entry) (acc : Closest) (e : Entry) :
  scanned done acc -> scanned (done ++ [e]) (closer acc e).
Proof.
  destruct e as [nextId nextPosition]. unfold closer.
  intros [(Hid & Hsd & Hall) | (before & id & p & after & Hdone & Hid & Hsd & Hp & Hb & Ha)].
  - rewrite Hsd. destruct (norm nextPosition <? infinity) eqn:E.
    + right. exists done, nextId, nextPosition, []. repeat split; auto.
      eapply Forall_impl; [| exact Hall]. cbn beta. intros e He.
      destruct (norm (snd e) <=? norm nextPosition) eqn:Hle; [| reflexivity].
      rewrite (below_bound _ _ infinity Num.Nonneg_infinity E Hle) in He. discriminate.
    + left. repeat split; auto. apply Forall_app. split; [exact Hall |]. now repeat constructor.
  - rewrite Hsd. destruct (norm nextPosition <? norm p) eqn:E.
    + assert (Hnp : Num.Nonneg (norm p))
        by (apply norm_Nonneg; now apply (Num.ltb_not_nan _ _ Hp)).
      right. exists (before ++ (id, p) :: after), nextId, nextPosition, [].
      subst done. repeat split; auto.
      * apply Num.ltb_trans with (norm p); auto using Num.Nonneg_infinity.
        apply norm_Nonneg. now apply (Num.ltb_not_nan _ _ E).
      * apply Forall_app. split; [| constructor].
        -- eapply Forall_impl; [| exact Hb]. cbn beta. intros e He.
           destruct (norm (snd e) <=? norm nextPosition) eqn:Hle; [| reflexivity].
           pose proof (below_bound _ _ _ Hnp E Hle) as Hlt.
           apply Num.ltb_leb in Hlt. congruence.
        -- now apply Num.ltb_not_leb.
        -- eapply Forall_impl; [| exact Ha]. cbn beta. intros e He.
           destruct (norm (snd e) <=? norm nextPosition) eqn:Hle; [| reflexivity].
           pose proof (below_bound _ _ _ Hnp E Hle) as Hlt. congruence.
    + right. exists before, id, p, (after ++ [(nextId, nextPosition)]).
      subst done. rewrite <- app_assoc. repeat split; auto.
      apply Forall_app. split; [exact Ha |]. now repeat constructor.
Qed.

Lemma scanned_fold (rest : list Entry) :
  forall done acc, scanned done acc -> scanned (done ++ rest) (fold_left closer rest acc).
Proof.
  induction rest as [| e rest IH]; intros done acc H; cbn [fold_left].
  - now rewrite app_nil_r.
  - replace (done ++ e :: rest) with ((done ++ [e]) ++ rest) by now rewrite <- app_assoc.
    apply IH. now apply scanned_step.
Qed.

Lemma scanned_all (entries : list Entry) :
  scanned entries (fold_left closer entries {| closestId := None; shortestDistance := infinity |}).
Proof.
  apply (scanned_fold entries []). left. repeat split. constructor.
Qed.

End Scan.

(** ** The train markers *)

Module Markers.

(** The [focusOnMount] prop of each train marker of a list of children. *)
Definition focusFlags (elements : list Element) : list bool :=
  flat_map (fun e => match e with TrainMarker props => [focusOnMount props] | _ => [] end)
    elements.

(** [flag] for the first of [n] trains, [false] for every other. *)
Definition firstOnly (flag : bool) (n : nat) : list bool :=
  match n with
  | O => []
  | S rest => flag :: repeat false rest
  end.


Lemma focusFlags_later (config : LineConfig.t) (colors : Colors) (flag : bool)
  (pairs : list Pair.t) :
  forall n, focusFlags (mapi_from (renderTrain config colors flag) (S n) pairs)
            = repeat false (List.length pairs).
Proof.
  induction pairs as [| pair rest IH]; intros n; cbn; [reflexivity |].
  rewrite andb_false_r. f_equal. apply IH.
Qed.

Lemma focusFlags_mapi (config : LineConfig.t) (colors : Colors) (flag : bool)
  (pairs : list Pair.t) :
  focusFlags (mapi (renderTrain config colors flag) pairs) = firstOnly flag (List.length pairs).
Proof.
  destruct pairs as [| pair rest]; cbn; [reflexivity |].
  rewrite andb_true_r. f_equal. apply focusFlags_later.
Qed.

Lemma renderTrains_sorted (props : Props) (st : State) (colors : Colors) (h : Heap) :
  renderTrains props st colors h
  = (mapi (renderTrain (line props) colors (shouldFocusOnFirstTrain st))
       (sortedByDistance (stationPositions (prerendered props)) (h (trainRoutePairs props))),
     Heap_write h (trainRoutePairs props)
       (sortedByDistance (stationPositions (prerendered props)) (h (trainRoutePairs props)))).
Proof.
  unfold renderTrains, sortTrainRoutePairsByDistance. now rewrite Distance.Heap_write_same.
Qed.

End Markers.

(** ** The claims *)

Section Claims.

Variable Number_toString : float -> string.

Local Open Scope string_scope.
Local Open Scope float_scope.

(** C1 (as amended). When the distance of every pair is a number,
    [sortTrainRoutePairsByDistance] leaves in the array it returns a
    permutation of the pairs, in ascending order of their distance from the
    origin, and the pairs of any one distance stand in the order they had in
    the input. *)
Theorem orderByDistance_sorted_stable
  (pairs : ArrayRef) (positions : Table Position.t) (h : Heap) :
  Distance.numericDistances positions (h pairs) = true ->
  let d := Distance.distanceOf positions in
  let result := sortTrainRoutePairsByDistance pairs positions h in
  let out := snd result (fst result) in
  Permutation (h pairs) out
  /\ StronglySorted (fun a b => (d a <=? d b) = true) out
  /\ (forall c, filter (fun p => d p =? c) out = filter (fun p => d p =? c) (h pairs)).
Proof.
  intros Hnum. cbn zeta. unfold sortTrainRoutePairsByDistance. cbn [fst snd].
  rewrite Distance.Heap_write_same. now apply Distance.sortedByDistance_spec.
Qed.


(** C4. A line without train pairs renders the notice and no [svg]: the
    Red line's own sentence, and for any other name the general one with the
    name in it. *)
Theorem empty_line_notice (props : Props) (st : State) (h : Heap) :
  h (trainRoutePairs props) = [] ->
  Line Number_toString props st h
  = (Tag "div" [("className", AString "line-pane empty")]
       [Tag "div" [("className", AString "empty-notice")]
          [Text (emptyNotice (LineConfig.name (line props)))]],
     h)
  /\ hasTag "svg" (fst (Line Number_toString props st h)) = false
  /\ (LineConfig.name (line props) = "Red"%string ->
      emptyNotice (LineConfig.name (line props))
      = "New Red Line trains are expected later in 2020."%string)
  /\ (LineConfig.name (line props) <> "Red"%string ->
      emptyNotice (LineConfig.name (line props))
      = ("No new trains on the " ++ LineConfig.name (line props) ++ " Line right now.")%string).
Proof.
  intros Hh. unfold Line. rewrite Hh. cbn [List.length Nat.eqb fst].
  split; [reflexivity |]. split; [reflexivity |]. unfold emptyNotice. split.
  - now intros ->.
  - intros Hne. apply String.eqb_neq in Hne. now rewrite Hne.
Qed.

(** C6 (as amended). [findClosestStationToTop] returns [null] for an empty
    table; for a single entry it returns the entry's id when its distance is
    below [Infinity] and [null] otherwise; in general it returns [null] when
    no distance is below [Infinity], and otherwise the id of an entry whose
    distance is below [Infinity], that no earlier entry is at most as far as,
    and that no later entry is closer than. *)
Theorem closest_station :
  findClosestStationToTop [] = None
  /\ (forall id p,
        findClosestStationToTop [(id, p)] = if norm p <? infinity then Some id else None)
  /\ (forall entries : Table Position.t,
        match findClosestStationToTop entries with
        | None => Forall (fun e => (norm (snd e) <? infinity) = false) entries
        | Some id =>
            exists before p after,
              entries = (before ++ (id, p) :: after)%list
              /\ (norm p <? infinity) = true
              /\ Forall (fun e => (norm (snd e) <=? norm p) = false) before
              /\ Forall (fun e => (norm (snd e) <? norm p) = false) after
        end).
Proof.
  split; [reflexivity |]. split.
  - intros id p. unfold findClosestStationToTop. cbn [fold_left closer shortestDistance].
    now destruct (norm p <? infinity).
  - intros entries. unfold findClosestStationToTop.
    destruct (Scan.scanned_all entries)
      as [(Hid & _ & Hall) | (before & id & p & after & He & Hid & _ & Hp & Hb & Ha)];
      rewrite Hid; [exact Hall |].
    exists before, p, after. auto.
Qed.

(** C7 (as amended). [sortTrainRoutePairsByDistance] returns the very array
    it was given and works in place: after the call that array holds a
    permutation of its former elements, in ascending order of distance when
    the distance of every pair is a number, and every other array is as
    before. *)
Theorem orderByDistance_in_place
  (pairs : ArrayRef) (positions : Table Position.t) (h : Heap) :
  let d := Distance.distanceOf positions in
  let result := sortTrainRoutePairsByDistance pairs positions h in
  fst result = pairs
  /\ Permutation (h pairs) (snd result pairs)
  /\ (forall other, other <> pairs -> snd result other = h other)
  /\ (Distance.numericDistances positions (h pairs) = true ->
      StronglySorted (fun a b => (d a <=? d b) = true) (snd result pairs)).
Proof.
  cbn zeta. unfold sortTrainRoutePairsByDistance. cbn [fst snd].
  rewrite Distance.Heap_write_same.
  split; [reflexivity |]. split; [apply Array_sort_perm |]. split.
  - intros other Hother. unfold Heap_write.
    apply Nat.eqb_neq in Hother. now rewrite Hother.
  - intros Hnum. now apply Distance.sortedByDistance_spec.
Qed.


(** The viewbox with the paddings as parameters, as the caller who passes
    paddings reads the function: its four numbers and its text. *)
Definition paddedViewbox (paddingX paddingTop paddingBottom : float) (bounds : Bounds.t)
  : float * float * float * float :=
  (Bounds.left bounds - paddingX, Bounds.top bounds - paddingTop,
   Bounds.right bounds - Bounds.left bounds + paddingX * 2,
   Bounds.bottom bounds - Bounds.top bounds + paddingTop + paddingBottom).

Definition paddedViewboxText (paddingX paddingTop paddingBottom : float) (bounds : Bounds.t)
  : string :=
  (Number_toString (Bounds.left bounds - paddingX) ++ " "
   ++ Number_toString (Bounds.top bounds - paddingTop) ++ " "
   ++ Number_toString (Bounds.right bounds - Bounds.left bounds + paddingX * 2) ++ " "
   ++ Number_toString (Bounds.bottom bounds - Bounds.top bounds + paddingTop + paddingBottom))%string.

(** C9. Whatever follows the bounds in a call of [renderViewboxForBounds]
    has no effect: the call returns the viewbox of the paddings 50, 5 and 10.
    So does the call in [Line], which passes [{ paddingX: 500, paddingY: 5 }],
    and that viewbox is the [viewBox] of the [svg] [Line] renders. *)
Theorem viewbox_ignores_options (b : Bounds.t) (rest : list ViewboxOptions)
  (props : Props) (st : State) (h : Heap) :
  call_unary (renderViewboxForBounds Number_toString) b rest = paddedViewboxText 50 5 10 b
  /\ viewboxNumbers b = paddedViewbox 50 5 10 b
  /\ viewboxOf Number_toString (prerendered props)
     = paddedViewboxText 50 5 10 (bounds (prerendered props))
  /\ attributeOf "svg" "viewBox" (fst (Line Number_toString props st h))
     = match h (trainRoutePairs props) with
       | [] => None
       | _ :: _ => Some (AString (paddedViewboxText 50 5 10 (bounds (prerendered props))))
       end.
Proof.
  split; [reflexivity |]. split; [reflexivity |]. split; [reflexivity |].
  unfold Line. destruct (h (trainRoutePairs props)) as [| p0 rest0] eqn:Hh; [reflexivity |].
  cbn [List.length Nat.eqb]. rewrite Markers.renderTrains_sorted. reflexivity.
Qed.

(** C10. The [svg] that [Line] renders carries the style
    [{ height: '100%' }] whatever the bounds are: [renderRelativeStyles] is
    applied to the viewbox string, on which both fields read [undefined].
    Only on an object with two numbers does it ever answer
    [{ width: '100%' }]. *)
Theorem relative_styles_of_string (props : Props) (st : State) (h : Heap) :
  attributeOf "svg" "style" (fst (Line Number_toString props st h))
  = match h (trainRoutePairs props) with
    | [] => None
    | _ :: _ => Some (AStyle [("height", "100%")]%string)
    end
  /\ (forall s,
        widthOf (Primitive s) = Undefined /\ heightOf (Primitive s) = Undefined
        /\ renderRelativeStyles (Primitive s) = [("height", "100%")]%string)
  /\ (forall width height,
        renderRelativeStyles (Object (Number width) (Number height))
        = if height <? width then [("width", "100%")]%string else [("height", "100%")]%string).
Proof.
  split; [| split; [now repeat split | reflexivity]].
  unfold Line. destruct (h (trainRoutePairs props)) as [| p0 rest0] eqn:Hh; [reflexivity |].
  cbn [List.length Nat.eqb]. rewrite Markers.renderTrains_sorted. reflexivity.
Qed.

(** C2 (as amended). For every bounds, [renderViewboxForBounds] formats
    minX = left - 50, minY = top - 5, width = right - left + 100 and
    height = (bottom - top + 5) + 10, each operation rounded to binary64; and
    for bounds with finite fields, left <= right and top <= bottom, width and
    height are strictly positive. *)
Theorem viewbox_numbers (b : Bounds.t) :
  viewboxNumbers b
  = (Bounds.left b - 50, Bounds.top b - 5,
     Bounds.right b - Bounds.left b + 100, Bounds.bottom b - Bounds.top b + 5 + 10)
  /\ renderViewboxForBounds Number_toString b
     = (Number_toString (Bounds.left b - 50) ++ " " ++ Number_toString (Bounds.top b - 5) ++ " "
        ++ Number_toString (Bounds.right b - Bounds.left b + 100) ++ " "
        ++ Number_toString (Bounds.bottom b - Bounds.top b + 5 + 10))%string
  /\ (is_finite (Bounds.top b) = true -> is_finite (Bounds.bottom b) = true ->
      is_finite (Bounds.left b) = true -> is_finite (Bounds.right b) = true ->
      (Bounds.left b <=? Bounds.right b) = true -> (Bounds.top b <=? Bounds.bottom b) = true ->
      (0 <? Bounds.right b - Bounds.left b + 100) = true
      /\ (0 <? Bounds.bottom b - Bounds.top b + 5 + 10) = true).
Proof.
  split; [reflexivity |]. split; [reflexivity |].
  intros Ht Hb Hl Hr Hx Hy. split; apply Num.positive_ltb.
  - now apply Num.padded_extent_positive.
  - apply Num.add_padding_positive; [| reflexivity].
    now apply Num.padded_extent_positive.
Qed.

(** C5 (as amended). [abbreviateStationName] maps "Boston College" to "B.C."
    and "Hynes Convention Center" to "Hynes", returns every name that holds
    none of the three patterns unchanged, and abbreviating twice equals
    abbreviating once exactly for the names whose abbreviation holds none of
    the patterns. *)
Theorem abbreviate_spec :
  abbreviateStationName "Boston College" = "B.C."%string
  /\ abbreviateStationName "Hynes Convention Center" = "Hynes"%string
  /\ (forall s, Abbreviate.anyPattern s = false -> abbreviateStationName s = s)
  /\ (forall x, abbreviateStationName (abbreviateStationName x) = abbreviateStationName x
                <-> Abbreviate.anyPattern (abbreviateStationName x) = false).
Proof.
  split; [reflexivity |]. split; [reflexivity |]. split.
  - exact Abbreviate.abbreviate_absent.
  - intros x. split.
    + apply Abbreviate.abbreviate_fixed.
    + apply Abbreviate.abbreviate_absent.
Qed.

End Claims.

(** ** Concrete instances *)

Local Open Scope string_scope.
Local Open Scope float_scope.

(** A stand-in for [Number::toString] where an instance needs one. *)
Definition someNumberToString (n : float) : string := "n".

(** A small line: stations [a] at (3, 4) and [b] at (1, 0), and four trains,
    one of them at a station the table does not hold. *)
Definition trainAt (label stationId : string) : Pair.t :=
  {| Pair.train := {| Train.label := label; Train.stationId := stationId |};
     Pair.route := {| Route.id := "Green-B" |} |}.

Definition examplePositions : Table Position.t :=
  [("a", {| Position.x := 3; Position.y := 4 |});
   ("b", {| Position.x := 1; Position.y := 0 |})].

Definition examplePairs : list Pair.t :=
  [trainAt "first" "a"; trainAt "second" "b"; trainAt "lost" "nowhere"; trainAt "third" "a"].

(** The array of the example's pairs is the store's array 0. *)
Definition exampleArray : ArrayRef := O.

Definition exampleHeap : Heap := fun a => if Nat.eqb a exampleArray then examplePairs else [].

Definition emptyHeap : Heap := fun _ => [].

Definition exampleProps : Props :=
  {| line := {| LineConfig.name := "Green";
                LineConfig.color := "green";
                LineConfig.colorSecondary := "darkgreen";
                LineConfig.getStationLabelPosition := fun _ => Some "right";
                LineConfig.shouldLabelTrain := fun _ => false |};
     style := [];
     prerendered := {| pathDirective := "M 0 0 L 3 4";
                       bounds := {| Bounds.top := 0; Bounds.bottom := 4;
                                    Bounds.left := 0; Bounds.right := 3 |};
                       routes := [{| Route.id := "Green-B" |}];
                       stationPositions := examplePositions;
                       stations := [("a", {| Station.name := "Boston College" |});
                                    ("b", {| Station.name := "Park Street" |})] |};
     trainRoutePairs := exampleArray |}.

Definition exampleState : State :=
  {| lineOffset := None; shouldFocusOnFirstTrain := true; container := None |}.

(** The example, sorted: the lost train first (distance 0), then the one at
    [b] (distance 1), then the two at [a] (distance 5) in their input order. *)
Example examplePairs_sorted :
  sortedByDistance examplePositions examplePairs
  = [trainAt "lost" "nowhere"; trainAt "second" "b"; trainAt "first" "a"; trainAt "third" "a"].
Proof. reflexivity. Qed.

(** C1, on the example. *)
Lemma orderByDistance_sorted_stable_witness :
  Distance.numericDistances examplePositions (exampleHeap exampleArray) = true
  /\ Permutation (exampleHeap exampleArray)
       (snd (sortTrainRoutePairsByDistance exampleArray examplePositions exampleHeap) exampleArray)
  /\ StronglySorted
       (fun a b => (Distance.distanceOf examplePositions a
                    <=? Distance.distanceOf examplePositions b) = true)
       (snd (sortTrainRoutePairsByDistance exampleArray examplePositions exampleHeap) exampleArray).
Proof.
  split; [reflexivity |].
  pose proof (orderByDistance_sorted_stable exampleArray examplePositions exampleHeap eq_refl)
    as (Hperm & Hsorted & _).
  exact (conj Hperm Hsorted).
Defined.


(** A table with a coordinate that is not a number. *)
Definition brokenPositions : Table Position.t :=
  [("far", {| Position.x := 2; Position.y := 0 |});
   ("broken", {| Position.x := nan; Position.y := 0 |});
   ("near", {| Position.x := 1; Position.y := 0 |})].

Definition heapOf (pairs : list Pair.t) : Heap :=
  fun a => if Nat.eqb a exampleArray then pairs else [].

(** C1 as stated fails: next to a train whose distance is NaN the comparator
    answers NaN, which counts as equal, and the array stays as it was, the
    train at distance 2 ahead of the train at distance 1 (an engine that looks
    for ascending runs first finds one run here and leaves it alone too).
    Whatever the order, NaN is neither at most nor at least the distance of
    a neighbour. *)
Lemma orderByDistance_nan_unsorted :
  snd (sortTrainRoutePairsByDistance exampleArray brokenPositions
         (heapOf [trainAt "t1" "far"; trainAt "t2" "broken"; trainAt "t3" "near"]))
    exampleArray
  = [trainAt "t1" "far"; trainAt "t2" "broken"; trainAt "t3" "near"]
  /\ Distance.distanceOf brokenPositions (trainAt "t1" "far") = 2
  /\ is_nan (Distance.distanceOf brokenPositions (trainAt "t2" "broken")) = true
  /\ Distance.distanceOf brokenPositions (trainAt "t3" "near") = 1
  /\ (Distance.distanceOf brokenPositions (trainAt "t1" "far")
      <=? Distance.distanceOf brokenPositions (trainAt "t3" "near")) = false
  /\ (Distance.distanceOf brokenPositions (trainAt "t2" "broken")
      <=? Distance.distanceOf brokenPositions (trainAt "t3" "near")) = false
  /\ (Distance.distanceOf brokenPositions (trainAt "t3" "near")
      <=? Distance.distanceOf brokenPositions (trainAt "t2" "broken")) = false.
Proof. repeat split. Qed.


(** C4, for the example line without trains. *)
Lemma empty_line_notice_witness :
  emptyHeap (trainRoutePairs exampleProps) = []
  /\ fst (Line someNumberToString exampleProps exampleState emptyHeap)
     = Tag "div" [("className", AString "line-pane empty")]
         [Tag "div" [("className", AString "empty-notice")]
            [Text "No new trains on the Green Line right now."]]
  /\ hasTag "svg" (fst (Line someNumberToString exampleProps exampleState emptyHeap)) = false.
Proof.
  split; [reflexivity |].
  pose proof (empty_line_notice someNumberToString exampleProps exampleState emptyHeap eq_refl)
    as (Hline & Hsvg & _).
  split; [now rewrite Hline | exact Hsvg].
Defined.

(** C6 as stated fails: the only entry lies at (1e200, 0), its distance
    overflows to [Infinity], which is not below the initial [Infinity], and
    the result is [null] rather than the entry's id. *)
Lemma closest_station_single_overflow :
  is_finite 1e200 = true
  /\ norm {| Position.x := 1e200; Position.y := 0 |} = infinity
  /\ findClosestStationToTop [("a", {| Position.x := 1e200; Position.y := 0 |})] = None.
Proof. repeat split. Qed.

(** C7 as stated fails: the array given to the function holds its pairs in
    another order once the function has returned. *)
Lemma orderByDistance_changes_input :
  exampleHeap exampleArray
  = [trainAt "first" "a"; trainAt "second" "b"; trainAt "lost" "nowhere"; trainAt "third" "a"]
  /\ snd (sortTrainRoutePairsByDistance exampleArray examplePositions exampleHeap) exampleArray
     = [trainAt "lost" "nowhere"; trainAt "second" "b"; trainAt "first" "a"; trainAt "third" "a"]
  /\ fst (sortTrainRoutePairsByDistance exampleArray examplePositions exampleHeap) = exampleArray.
Proof. repeat split. Qed.

(** C2, at the bounds of a 100 by 200 drawing. *)
Lemma viewbox_numbers_witness :
  (0 <? 100 - 0 + 100) = true /\ (0 <? 200 - 0 + 5 + 10) = true.
Proof.
  apply (proj2 (proj2 (viewbox_numbers someNumberToString
           {| Bounds.top := 0; Bounds.bottom := 200; Bounds.left := 0; Bounds.right := 100 |})));
    reflexivity.
Defined.

(** C2 as stated fails: for a drawing 0.12 units tall (and for one 2^53
    units tall) the two roundings of [+ 5 + 10] differ from the single
    rounding of [+ 15], and for bounds at infinity ([right >= left] holds)
    the width is NaN, not a positive number. *)
Lemma viewbox_height_differs :
  snd (viewboxNumbers {| Bounds.top := 0; Bounds.bottom := 0.12;
                         Bounds.left := 0; Bounds.right := 0 |})
  = 15.120000000000001
  /\ 0.12 - 0 + 15 = 15.12
  /\ (15.120000000000001 =? 15.12) = false
  /\ snd (viewboxNumbers {| Bounds.top := 0; Bounds.bottom := 9007199254740992;
                            Bounds.left := 0; Bounds.right := 0 |})
     = 9007199254741006
  /\ 9007199254740992 - 0 + 15 = 9007199254741008
  /\ (infinity <=? infinity) = true
  /\ is_nan (snd (fst (viewboxNumbers {| Bounds.top := 0; Bounds.bottom := 0;
                                         Bounds.left := infinity;
                                         Bounds.right := infinity |}))) = true
  /\ (0 <? snd (fst (viewboxNumbers {| Bounds.top := 0; Bounds.bottom := 0;
                                       Bounds.left := infinity;
                                       Bounds.right := infinity |}))) = false.
Proof. repeat split. Qed.

(** C5, at a name without any pattern. *)
Lemma abbreviate_spec_witness : abbreviateStationName "Park Street" = "Park Street"%string.
Proof. exact (proj1 (proj2 (proj2 abbreviate_spec)) "Park Street"%string eq_refl). Defined.

(** C5 as stated fails: only the first occurrence of a pattern is replaced,
    so a second abbreviation can still change the name. *)
Lemma abbreviate_not_idempotent :
  abbreviateStationName "Boston College Boston College" = "B.C. Boston College"%string
  /\ abbreviateStationName (abbreviateStationName "Boston College Boston College")
     = "B.C. B.C."%string
  /\ String.eqb (abbreviateStationName (abbreviateStationName "Boston College Boston College"))
       (abbreviateStationName "Boston College Boston College") = false.
Proof. repeat split. Qed.

(** ** More of the file: what the code around the cited places does *)

(** *** Reading a rendered tree *)

Definition Ref_eqb (a b : Ref) : bool :=
  match a, b with
  | setContainer, setContainer | firstStationRef, firstStationRef => true
  | _, _ => false
  end.

(** Whether an element of the tree carries [ref={r}]: after the commit
    [r.current] is a DOM node exactly then.  A train marker gets neither ref. *)
Fixpoint refAttached (r : Ref) (e : Element) : bool :=
  match e with
  | Text _ => false
  | Tag _ attrs children =>
      match get attrs "ref" with
      | Some (ARef r') => Ref_eqb r r'
      | _ => false
      end
      || existsb (refAttached r) children
  | TrainMarker _ => false
  | Provider _ children => existsb (refAttached r) children
  end.


(** The props of the train markers among some children. *)
Definition markersOf (elements : list Element) : list TrainProps :=
  flat_map (fun e => match e with TrainMarker props => [props] | _ => [] end) elements.

(** The children of the [svg] of a pane: none when the pane is the notice. *)
Definition sceneChildren (e : Element) : list Element :=
  match e with
  | Tag _ _ [Provider _ [Tag tag _ children]] => if String.eqb tag "svg" then children else []
  | _ => []
  end.

(** *** The hook state over the renders of one mount *)

(** [useState(null)], [useState(true)], [useState(null)].  Of the three only
    [lineOffset] and [shouldFocusOnFirstTrain] are followed below: [container]
    is set by React through the callback ref of the pane and read by no code
    of this file. *)
Definition initialState : State :=
  {| lineOffset := None; shouldFocusOnFirstTrain := true; container := None |}.

(** [trainRoutePairs.length > 0] *)
Definition hasTrainsIn (props : Props) (h : Heap) : bool :=
  negb (Nat.eqb (List.length (h (trainRoutePairs props))) 0).

(** The effects after a later render: the layout effect has no dependency and
    does not run again; the other runs when [hasTrains] differs from its
    value at the render before. *)
Definition updated (previous : bool) (props : Props) (h : Heap) (st : State) : State :=
  if Bool.eqb previous (hasTrainsIn props h) then st else focusEffect (hasTrainsIn props h) st.

(** The renders that follow, each with the props and the store of its time. *)
Fixpoint updates (previous : bool) (frames : list (Props * Heap)) (st : State) : State :=
  match frames with
  | [] => st
  | (props, h) :: rest => updates (hasTrainsIn props h) rest (updated previous props h st)
  end.

Section Mount.

Variable Number_toString : float -> string.

(** The state after the effects of the first render.  [x] is what
    [firstStation.getBoundingClientRect()] reports when the ref holds a node. *)
Definition mounted (x : float) (props : Props) (h : Heap) : State :=
  let tree := fst (Line Number_toString props initialState h) in
  let measured := if refAttached firstStationRef tree then Some x else None in
  focusEffect (hasTrainsIn props h) (layoutEffect measured initialState).

End Mount.

(** *** Lemmas *)

Module Extra.

Local Open Scope string_scope.

Lemma replace_empty (pattern replacement s : string) :
  replacement <> "" -> replace pattern replacement s = "" -> s = "".
Proof.
  intros Hr. destruct s as [| c s]; [reflexivity |]. cbn [replace].
  destruct (prefix pattern (String c s)); [| discriminate].
  destruct replacement; [contradiction | discriminate].
Qed.

(** Only the empty name has an empty abbreviation. *)
Lemma abbreviate_empty (s : string) : abbreviateStationName s = "" <-> s = "".
Proof.
  split; [| now intros ->]. unfold abbreviateStationName. intros H.
  apply replace_empty in H; [| discriminate].
  apply replace_empty in H; [| discriminate].
  apply replace_empty in H; [exact H | discriminate].
Qed.

Lemma abbreviate_length_le (s : string) :
  String.length (abbreviateStationName s) <= String.length s.
Proof.
  unfold abbreviateStationName.
  eapply Nat.le_trans; [apply Abbreviate.length_replace_le; cbn; lia |].
  eapply Nat.le_trans; [apply Abbreviate.length_replace_le; cbn; lia |].
  apply Abbreviate.length_replace_le; cbn; lia.
Qed.

(** A name that holds a pattern gets strictly shorter. *)
Lemma abbreviate_length_lt (s : string) :
  Abbreviate.anyPattern s = true ->
  String.length (abbreviateStationName s) < String.length s.
Proof.
  unfold Abbreviate.anyPattern, abbreviateStationName. intros H.
  set (s1 := replace "Boston College" "B.C." s).
  set (s2 := replace "Hynes Convention Center" "Hynes" s1).
  assert (L1 : String.length s1 <= String.length s)
    by (apply Abbreviate.length_replace_le; cbn; lia).
  assert (L2 : String.length s2 <= String.length s1)
    by (apply Abbreviate.length_replace_le; cbn; lia).
  assert (L3 : String.length (replace "Heath Street" "Heath" s2) <= String.length s2)
    by (apply Abbreviate.length_replace_le; cbn; lia).
  destruct (occurs "Boston College" s) eqn:H1.
  { pose proof (Abbreviate.length_replace_lt "Boston College" "B.C." s ltac:(cbn; lia) H1) as L.
    fold s1 in L. lia. }
  assert (E1 : s1 = s) by (apply Abbreviate.replace_absent; exact H1).
  destruct (occurs "Hynes Convention Center" s) eqn:H2.
  { rewrite <- E1 in H2.
    pose proof (Abbreviate.length_replace_lt "Hynes Convention Center" "Hynes" s1
                  ltac:(cbn; lia) H2) as L.
    fold s2 in L. lia. }
  assert (E2 : s2 = s) by (unfold s2; rewrite E1; apply Abbreviate.replace_absent; exact H2).
  cbn [orb] in H. rewrite <- E2 in H.
  pose proof (Abbreviate.length_replace_lt "Heath Street" "Heath" s2 ltac:(cbn; lia) H) as L.
  lia.
Qed.

(** Lookups in [{ ...a, ...b }]. *)
Lemma get_app {V : Type} (a b : Table V) (k : string) :
  get (a ++ b)%list k = match get a k with Some v => Some v | None => get b k end.
Proof.
  induction a as [| [k0 v0] a IH]; cbn [get app]; [reflexivity |].
  now destruct (String.eqb k0 k).
Qed.

Lemma get_overridden (a b : Style) (k : string) :
  get (map (fun kv => match get b (fst kv) with Some v => (fst kv, v) | None => kv end) a) k
  = match get a k with
    | Some va => Some (match get b k with Some v => v | None => va end)
    | None => None
    end.
Proof.
  induction a as [| [k0 v0] a IH]; cbn [map get fst]; [reflexivity |].
  destruct (get b k0) as [v |] eqn:Eb; cbn [get]; destruct (String.eqb k0 k) eqn:E;
    try exact IH; apply String.eqb_eq in E; subst k0; now rewrite Eb.
Qed.

Lemma get_only_new (a b : Style) (k : string) :
  get a k = None ->
  get (filter (fun kv => match get a (fst kv) with Some _ => false | None => true end) b) k
  = get b k.
Proof.
  intros Ha. induction b as [| [k0 v0] b IH]; cbn [filter get fst]; [reflexivity |].
  destruct (String.eqb k0 k) eqn:E.
  - apply String.eqb_eq in E. subst k0. rewrite Ha. cbn [get]. now rewrite String.eqb_refl.
  - destruct (get a k0); [exact IH |]. cbn [get]. now rewrite E.
Qed.

Lemma get_spread (a b : Style) (k : string) :
  get (spread a b) k = match get b k with Some v => Some v | None => get a k end.
Proof.
  unfold spread. rewrite get_app, get_overridden.
  destruct (get a k) as [va |] eqn:Ha.
  - now destruct (get b k).
  - rewrite get_only_new by exact Ha. now destruct (get b k).
Qed.

Lemma spread_nil (b : Style) : spread [] b = b.
Proof.
  unfold spread. cbn [map app get]. induction b as [| kv b IH]; cbn [filter]; [reflexivity |].
  now rewrite IH.
Qed.

End Extra.

(** Sorting an array that is in ascending order leaves it as it is. *)
Section SortAgain.

Context {A : Type}.
Variable key : A -> float.
Hypothesis key_Nonneg : forall a, Num.Nonneg (key a).

Lemma Array_sort_of_ascending (items : list A) :
  ascending key items -> Array_sort (byKey key) items = items.
Proof.
  unfold ascending. induction items as [| item rest IH]; intros Hs; [reflexivity |].
  apply StronglySorted_inv in Hs as [Hrest Hall].
  rewrite Array_sort_cons, IH by exact Hrest.
  destruct rest as [| next rest]; [reflexivity |]. cbn [insert].
  rewrite (greater_spec key key_Nonneg).
  apply Forall_inv in Hall. now rewrite (Num.leb_not_ltb _ _ Hall).
Qed.

End SortAgain.

Module Again.

Local Open Scope float_scope.

(** With numeric distances a second sort finds the array in order. *)
Lemma sortedByDistance_again (stationPositions : Table Position.t) (pairs : list Pair.t) :
  Distance.numericDistances stationPositions pairs = true ->
  sortedByDistance stationPositions (sortedByDistance stationPositions pairs)
  = sortedByDistance stationPositions pairs.
Proof.
  intros Hnum. pose proof (Distance.distanceOr0_numeric _ _ Hnum) as Heq.
  rewrite (Distance.sortedByDistance_byKey stationPositions (sortedByDistance _ _)).
  rewrite (Distance.sortedByDistance_byKey stationPositions pairs).
  assert (Hsort : Array_sort (byKey (Distance.distanceOf stationPositions)) pairs
                  = Array_sort (byKey (Distance.distanceOr0 stationPositions)) pairs).
  { apply Array_sort_ext. intros a b Ha Hb. unfold byKey. now rewrite !Heq. }
  rewrite Hsort.
  set (out := Array_sort (byKey (Distance.distanceOr0 stationPositions)) pairs).
  assert (Hout : Array_sort (byKey (Distance.distanceOf stationPositions)) out
                 = Array_sort (byKey (Distance.distanceOr0 stationPositions)) out).
  { apply Array_sort_ext. intros a b Ha Hb. unfold byKey.
    apply Array_sort_In in Ha, Hb. now rewrite !Heq. }
  rewrite Hout. apply Array_sort_of_ascending.
  - apply Distance.distanceOr0_Nonneg.
  - apply Array_sort_ascending. apply Distance.distanceOr0_Nonneg.
Qed.

End Again.

Module Tree.

Local Open Scope string_scope.
Local Open Scope nat_scope.

Lemma markersOf_app (a b : list Element) : markersOf (a ++ b)%list = (markersOf a ++ markersOf b)%list.
Proof. unfold markersOf. apply flat_map_app. Qed.

Lemma markersOf_trains (config : LineConfig.t) (colors : Colors) (flag : bool)
  (pairs : list Pair.t) :
  forall n, map trainOf (markersOf (mapi_from (renderTrain config colors flag) n pairs))
            = map Pair.train pairs.
Proof.
  induction pairs as [| pair rest IH]; intros n; cbn; [reflexivity |]. f_equal. apply IH.
Qed.

Lemma markersOf_trains_props (config : LineConfig.t) (colors : Colors) (flag : bool)
  (pairs : list Pair.t) :
  forall n,
  Forall (fun m => key m = Train.label (trainOf m)
                   /\ alwaysLabelTrain m = LineConfig.shouldLabelTrain config (trainOf m)
                   /\ colorsOf m = colors)
    (markersOf (mapi_from (renderTrain config colors flag) n pairs)).
Proof.
  induction pairs as [| pair rest IH]; intros n; cbn; constructor; [now cbn | apply IH].
Qed.

Section WithNumbers.

Variable Number_toString : float -> string.

Lemma markersOf_stations (config : LineConfig.t) (pre : Prerendered) (colors : Colors)
  (closest : option string) (entries : Table Position.t) :
  markersOf (map (renderStation Number_toString config pre colors closest) entries) = [].
Proof.
  induction entries as [| [id pos] rest IH]; cbn; [reflexivity | exact IH].
Qed.

Lemma refAttached_station (config : LineConfig.t) (pre : Prerendered) (colors : Colors)
  (closest : option string) (id : string) (pos : Position.t) :
  refAttached firstStationRef (renderStation Number_toString config pre colors closest (id, pos))
  = match closest with Some c => String.eqb id c | None => false end.
Proof.
  unfold renderStation.
  destruct closest as [c |]; [destruct (String.eqb id c) |];
    destruct (truthy _ && truthy _); reflexivity.
Qed.

Lemma refAttached_stations (config : LineConfig.t) (pre : Prerendered) (colors : Colors)
  (closest : option string) (entries : Table Position.t) :
  map (refAttached firstStationRef)
    (map (renderStation Number_toString config pre colors closest) entries)
  = map (fun entry => match closest with Some c => String.eqb (fst entry) c | None => false end)
      entries.
Proof.
  rewrite map_map. apply map_ext. intros [id pos]. apply refAttached_station.
Qed.

Lemma refAttached_trains (config : LineConfig.t) (colors : Colors) (flag : bool)
  (pairs : list Pair.t) :
  forall n, existsb (refAttached firstStationRef)
              (mapi_from (renderTrain config colors flag) n pairs) = false.
Proof.
  induction pairs as [| pair rest IH]; intros n; cbn; [reflexivity | apply IH].
Qed.

Lemma existsb_as_map {A : Type} (f : A -> bool) (l : list A) :
  existsb f l = existsb (fun b => b) (map f l).
Proof. induction l as [| a l IH]; cbn; [reflexivity | now rewrite IH]. Qed.

End WithNumbers.

(** The id [findClosestStationToTop] returns is a key of the table. *)
Lemma closest_is_key (entries : Table Position.t) (c : string) :
  findClosestStationToTop entries = Some c ->
  existsb (fun entry => String.eqb (fst entry) c) entries = true.
Proof.
  unfold findClosestStationToTop.
  destruct (Scan.scanned_all entries)
    as [(Hid & _) | (before & id & p & after & He & Hid & _)]; rewrite Hid; [discriminate |].
  intros [= ->]. rewrite He. apply existsb_exists. exists (c, p). split.
  - apply in_or_app. right. now left.
  - apply String.eqb_refl.
Qed.

(** With distinct keys exactly one entry has a key of the table. *)
Lemma one_entry_per_key {V : Type} (entries : Table V) (c : string) :
  NoDup (map fst entries) ->
  existsb (fun entry => String.eqb (fst entry) c) entries = true ->
  List.length (filter (fun entry => String.eqb (fst entry) c) entries) = 1.
Proof.
  induction entries as [| [k v] rest IH]; cbn [map fst existsb filter]; [discriminate |].
  intros Hnd Hex. apply NoDup_cons_iff in Hnd as [Hk Hnd].
  destruct (String.eqb k c) eqn:E.
  - apply String.eqb_eq in E. subst k. cbn [List.length]. f_equal.
    apply length_zero_iff_nil.
    destruct (filter _ rest) as [| [k' v'] l] eqn:Ef; [reflexivity | exfalso].
    assert (Hin : In (k', v') (filter (fun entry => String.eqb (fst entry) c) rest))
      by (rewrite Ef; now left).
    apply filter_In in Hin as [Hin Hc]. cbn in Hc. apply String.eqb_eq in Hc. subst k'.
    apply Hk. change c with (fst (c, v')). now apply in_map.
  - cbn [orb] in Hex. now apply IH.
Qed.

Lemma last_cons {A : Type} (l : list A) :
  forall a d : A, last (a :: l) d = last l a.
Proof.
  induction l as [| b l IH]; intros a d; [reflexivity |].
  change (last (a :: b :: l) d) with (last (b :: l) d). now rewrite !IH.
Qed.

Lemma updates_lineOffset (frames : list (Props * Heap)) :
  forall previous st, lineOffset (updates previous frames st) = lineOffset st.
Proof.
  induction frames as [| [props h] rest IH]; intros previous st; cbn [updates]; [reflexivity |].
  rewrite IH. unfold updated. now destruct (Bool.eqb _ _).
Qed.

(** After the effects of a render the focus flag is [!hasTrains] of that
    render. *)
Lemma updates_focus (frames : list (Props * Heap)) :
  forall previous st,
  shouldFocusOnFirstTrain st = negb previous ->
  shouldFocusOnFirstTrain (updates previous frames st)
  = negb (last (map (fun frame => hasTrainsIn (fst frame) (snd frame)) frames) previous).
Proof.
  induction frames as [| [props h] rest IH]; intros previous st Hst; cbn [updates map];
    [exact Hst |].
  rewrite last_cons. cbn [fst snd]. apply IH. unfold updated.
  destruct (Bool.eqb previous (hasTrainsIn props h)) eqn:E; [| reflexivity].
  apply Bool.eqb_prop in E. now rewrite <- E.
Qed.

End Tree.

(** *** Properties *)

Section Extras.

Variable Number_toString : float -> string.

Local Open Scope string_scope.
Local Open Scope float_scope.

Lemma length_mapi_from {A B : Type} (f : A -> nat -> B) (l : list A) :
  forall n, List.length (mapi_from f n l) = List.length l.
Proof. induction l as [| a l IH]; intros n; cbn; [reflexivity | now rewrite IH]. Qed.

Lemma sortedByDistance_perm (positions : Table Position.t) (pairs : list Pair.t) :
  Permutation pairs (sortedByDistance positions pairs).
Proof. rewrite Distance.sortedByDistance_byKey. apply Array_sort_perm. Qed.

(** The scene of a pane with trains: the path, the stations, the trains. *)
Lemma Line_scene (props : Props) (st : State) (h : Heap) :
  hasTrainsIn props h = true ->
  sceneChildren (fst (Line Number_toString props st h))
  = (renderLine (prerendered props)
       {| lines := "white";
          newTrains := LineConfig.color (line props);
          background := LineConfig.colorSecondary (line props) |}
     :: renderStations Number_toString (line props) (prerendered props)
          {| lines := "white";
             newTrains := LineConfig.color (line props);
             background := LineConfig.colorSecondary (line props) |}
     ++ mapi (renderTrain (line props)
                {| lines := "white";
                   newTrains := LineConfig.color (line props);
                   background := LineConfig.colorSecondary (line props) |}
                (shouldFocusOnFirstTrain st))
          (sortedByDistance (stationPositions (prerendered props))
             (h (trainRoutePairs props))))%list.
Proof.
  unfold hasTrainsIn, Line. intros H. apply negb_true_iff in H. rewrite H.
  rewrite Markers.renderTrains_sorted. reflexivity.
Qed.

Lemma Line_notice (props : Props) (st : State) (h : Heap) :
  hasTrainsIn props h = false ->
  Line Number_toString props st h
  = (Tag "div" [("className", AString "line-pane empty")]
       [Tag "div" [("className", AString "empty-notice")]
          [Text (emptyNotice (LineConfig.name (line props)))]],
     h).
Proof.
  unfold hasTrainsIn, Line. intros H. apply negb_false_iff in H. now rewrite H.
Qed.

(** X1. An abbreviation is never longer than the name, strictly shorter when
    the name holds a pattern, equal to the name exactly when it holds none,
    and empty only for the empty name. *)
Theorem abbreviate_lengths (s : string) :
  String.length (abbreviateStationName s) <= String.length s
  /\ (Abbreviate.anyPattern s = true ->
      String.length (abbreviateStationName s) < String.length s)
  /\ (abbreviateStationName s = s <-> Abbreviate.anyPattern s = false)
  /\ (abbreviateStationName s = "" <-> s = "").
Proof.
  split; [apply Extra.abbreviate_length_le |].
  split; [apply Extra.abbreviate_length_lt |].
  split; [| apply Extra.abbreviate_empty].
  split; [apply Abbreviate.abbreviate_fixed | apply Abbreviate.abbreviate_absent].
Qed.

(** X2. [distanceMap.get] finds, for every pair of the array, the norm of
    its station's position; when the positions have no such key it finds NaN
    if the station id names an inherited member and 0 if it names none; and
    it finds nothing for any other pair. *)
Theorem distanceMap_lookup (positions : Table Position.t) (pairs : list Pair.t) (p : Pair.t) :
  Map_get (distanceMapOf positions pairs) p
  = (if existsb (Pair.eqb p) pairs
     then Some match get positions (Train.stationId (Pair.train p)) with
               | Some station => norm station
               | None => if inherited (Train.stationId (Pair.train p)) then nan else 0
               end
     else None)
  /\ (existsb (Pair.eqb p) pairs = true <-> In p pairs).
Proof.
  split.
  - unfold distanceMapOf, Map_new. rewrite Distance.Map_get_fold. cbn [Map_get].
    now rewrite Distance.distanceOf_read.
  - rewrite existsb_exists. split.
    + intros (q & Hq & E). apply Distance.Pair_eqb_eq in E. now subst q.
    + intros H. exists p. split; [exact H | apply Distance.Pair_eqb_refl].
Qed.

(** X3. A render of [Line] writes to the store only the array of its pairs,
    which then holds a permutation of what it held, in ascending order of
    distance when the distance of every pair is a number; a pane without
    trains writes nothing. *)
Theorem Line_store (props : Props) (st : State) (h : Heap) :
  let array := trainRoutePairs props in
  let positions := stationPositions (prerendered props) in
  let d := Distance.distanceOf positions in
  let after := snd (Line Number_toString props st h) in
  (forall other, other <> array -> after other = h other)
  /\ Permutation (h array) (after array)
  /\ (Distance.numericDistances positions (h array) = true ->
      StronglySorted (fun a b => (d a <=? d b) = true) (after array))
  /\ (hasTrainsIn props h = false -> forall other, after other = h other).
Proof.
  cbn zeta.
  assert (H : forall other,
     snd (Line Number_toString props st h) other
     = if Nat.eqb other (trainRoutePairs props)
       then sortedByDistance (stationPositions (prerendered props)) (h (trainRoutePairs props))
       else h other).
  { intros other. destruct (hasTrainsIn props h) eqn:E.
    - unfold hasTrainsIn in E. apply negb_true_iff in E. unfold Line. rewrite E.
      rewrite Markers.renderTrains_sorted. reflexivity.
    - rewrite (Line_notice props st h E). cbn [snd].
      unfold hasTrainsIn in E. apply negb_false_iff, Nat.eqb_eq, length_zero_iff_nil in E.
      destruct (Nat.eqb other (trainRoutePairs props)) eqn:Eo; [| reflexivity].
      apply Nat.eqb_eq in Eo. subst other. now rewrite E. }
  split; [| split; [| split]].
  - intros other Hother. rewrite H. apply Nat.eqb_neq in Hother. now rewrite Hother.
  - rewrite H, Nat.eqb_refl. apply sortedByDistance_perm.
  - intros Hnum. rewrite H, Nat.eqb_refl. now apply Distance.sortedByDistance_spec.
  - intros E other. now rewrite (Line_notice props st h E).
Qed.

(** X4. When the distance of every pair is a number, sorting the array a
    second time changes nothing in the store. *)
Theorem orderByDistance_twice (pairs : ArrayRef) (positions : Table Position.t) (h : Heap) :
  Distance.numericDistances positions (h pairs) = true ->
  let once := sortTrainRoutePairsByDistance pairs positions h in
  let twice := sortTrainRoutePairsByDistance pairs positions (snd once) in
  fst twice = fst once /\ forall a, snd twice a = snd once a.
Proof.
  intros Hnum. cbn zeta. unfold sortTrainRoutePairsByDistance. cbn [fst snd].
  split; [reflexivity |]. intros a.
  rewrite Distance.Heap_write_same, Again.sortedByDistance_again by exact Hnum.
  unfold Heap_write. now destruct (Nat.eqb a pairs).
Qed.

(** X5. The train markers of a rendered pane show each train of the array
    once: their trains are a permutation of the trains of the pairs, and each
    marker has its train's label as key, the line's answer for the train as
    [alwaysLabelTrain], and the line's colors. *)
Theorem one_marker_per_train (props : Props) (st : State) (h : Heap) :
  let markers := markersOf (sceneChildren (fst (Line Number_toString props st h))) in
  Permutation (map Pair.train (h (trainRoutePairs props))) (map trainOf markers)
  /\ Forall (fun m => key m = Train.label (trainOf m)
                      /\ alwaysLabelTrain m
                         = LineConfig.shouldLabelTrain (line props) (trainOf m)
                      /\ colorsOf m
                         = {| lines := "white";
                              newTrains := LineConfig.color (line props);
                              background := LineConfig.colorSecondary (line props) |})
       markers.
Proof.
  cbn zeta. destruct (hasTrainsIn props h) eqn:E.
  - rewrite (Line_scene props st h E).
    change (markersOf (?a :: ?l)) with (markersOf l).
    unfold renderStations. rewrite Tree.markersOf_app, Tree.markersOf_stations. cbn [app].
    unfold mapi. split.
    + rewrite Tree.markersOf_trains. apply Permutation_map, sortedByDistance_perm.
    + apply Tree.markersOf_trains_props.
  - rewrite (Line_notice props st h E). cbn [fst sceneChildren markersOf flat_map map].
    unfold hasTrainsIn in E. apply negb_false_iff, Nat.eqb_eq, length_zero_iff_nil in E.
    rewrite E. split; constructor.
Qed.

(** X6. [Line] renders the [svg] exactly when there is a pair, and the [svg]
    then holds the path, one marker per station of the table and one marker
    per pair. *)
Theorem scene_iff_trains (props : Props) (st : State) (h : Heap) :
  hasTag "svg" (fst (Line Number_toString props st h)) = hasTrainsIn props h
  /\ List.length (sceneChildren (fst (Line Number_toString props st h)))
     = if hasTrainsIn props h
       then (1 + List.length (stationPositions (prerendered props))
               + List.length (h (trainRoutePairs props)))%nat
       else 0%nat.
Proof.
  destruct (hasTrainsIn props h) eqn:E.
  - split.
    + unfold hasTrainsIn in E. apply negb_true_iff in E. unfold Line. rewrite E.
      rewrite Markers.renderTrains_sorted. reflexivity.
    + rewrite (Line_scene props st h E). cbn [List.length].
      rewrite length_app. unfold renderStations, mapi.
      rewrite length_map, length_mapi_from.
      rewrite <- (Permutation_length (sortedByDistance_perm _ (h (trainRoutePairs props)))).
      reflexivity.
  - rewrite (Line_notice props st h E). split; reflexivity.
Qed.

Lemma length_filter_map {A B : Type} (f : B -> bool) (g : A -> B) (l : list A) :
  List.length (filter f (map g l)) = List.length (filter (fun a => f (g a)) l).
Proof.
  induction l as [| a l IH]; cbn; [reflexivity |]. destruct (f (g a)); cbn; now rewrite IH.
Qed.

Lemma existsb_never {A : Type} (l : list A) : existsb (fun _ => false) l = false.
Proof. induction l as [| a l IH]; [reflexivity | exact IH]. Qed.

Lemma filter_never {A : Type} (l : list A) : List.length (filter (fun _ => false) l) = 0%nat.
Proof. induction l as [| a l IH]; [reflexivity | exact IH]. Qed.

(** Whether the table has a station whose distance is below [Infinity]. *)
Definition hasClosest (positions : Table Position.t) : bool :=
  match findClosestStationToTop positions with
  | Some _ => true
  | None => false
  end.

(** The first-station ref holds a node after a render exactly when the pane
    has trains and the table a closest station. *)
Lemma Line_refAttached (props : Props) (st : State) (h : Heap) :
  refAttached firstStationRef (fst (Line Number_toString props st h))
  = hasTrainsIn props h && hasClosest (stationPositions (prerendered props)).
Proof.
  destruct (hasTrainsIn props h) eqn:E.
  - unfold hasTrainsIn in E. apply negb_true_iff in E.
    unfold Line. rewrite E, Markers.renderTrains_sorted.
    cbn [fst svgElement refAttached get existsb String.eqb Ascii.eqb Bool.eqb Ref_eqb
         orb andb].
    rewrite !orb_false_r. cbn [existsb refAttached renderLine get String.eqb Ascii.eqb
                               Bool.eqb orb].
    rewrite existsb_app. unfold mapi. rewrite Tree.refAttached_trains, orb_false_r.
    unfold renderStations, hasClosest.
    rewrite Tree.existsb_as_map, Tree.refAttached_stations, <- Tree.existsb_as_map.
    destruct (findClosestStationToTop _) as [c |] eqn:Ec.
    + exact (Tree.closest_is_key _ _ Ec).
    + apply existsb_never.
  - now rewrite (Line_notice props st h E).
Qed.

(** X7. With distinct station ids, [renderStations] hands the first-station
    ref to exactly one marker when [findClosestStationToTop] finds a station,
    and to none when it finds none. *)
Theorem one_first_station (config : LineConfig.t) (pre : Prerendered) (colors : Colors) :
  NoDup (map fst (stationPositions pre)) ->
  List.length (filter (refAttached firstStationRef)
                 (renderStations Number_toString config pre colors))
  = if hasClosest (stationPositions pre) then 1%nat else 0%nat.
Proof.
  intros Hnd. unfold renderStations, hasClosest. rewrite length_filter_map.
  destruct (findClosestStationToTop (stationPositions pre)) as [c |] eqn:Ec.
  - rewrite (filter_ext _ (fun entry => String.eqb (fst entry) c))
      by (intros [id pos]; apply Tree.refAttached_station).
    apply Tree.one_entry_per_key; [exact Hnd | exact (Tree.closest_is_key _ _ Ec)].
  - rewrite (filter_ext _ (fun _ => false))
      by (intros [id pos]; apply Tree.refAttached_station).
    apply filter_never.
Qed.


(** X9. In the style of the pane a property of the [style] prop wins over
    the computed one: [transform] is the caller's if the caller gives one,
    else the translation by the measured offset, else absent; before the
    measurement the style is the [style] prop itself. *)
Theorem container_style (offset : option float) (passed : Style) (k : string) :
  get (spread (renderContainerStyles Number_toString offset) passed) k
  = match get passed k, offset with
    | Some v, _ => Some v
    | None, Some x =>
        if String.eqb "transform" k
        then Some ("translateX(calc(" ++ Number_toString (0 - x) ++ "px + 40vw))")
        else None
    | None, None => None
    end
  /\ spread (renderContainerStyles Number_toString None) passed = passed.
Proof.
  split; [| apply Extra.spread_nil].
  rewrite Extra.get_spread. destruct (get passed k); [reflexivity |].
  destruct offset; reflexivity.
Qed.

(** X10. Over one mount the offset is measured once: it is the measured [x]
    when the first render had trains and a closest station, it is [null]
    otherwise, and no later render changes it. *)
Theorem offset_fixed_at_mount (x : float) (props : Props) (h : Heap)
  (frames : list (Props * Heap)) :
  lineOffset (updates (hasTrainsIn props h) frames (mounted Number_toString x props h))
  = if hasTrainsIn props h && hasClosest (stationPositions (prerendered props))
    then Some x
    else None.
Proof.
  rewrite Tree.updates_lineOffset. unfold mounted. cbn zeta.
  rewrite Line_refAttached. unfold focusEffect, layoutEffect. cbn [lineOffset].
  now destruct (hasTrainsIn props h && hasClosest _).
Qed.

(** X11. After the effects of a render the focus flag is [true] exactly when
    that render had no trains; so the render that follows gives the focus to
    its first train exactly when the render before it had none, and to no
    train otherwise. *)
Theorem focus_after_empty (x : float) (props : Props) (h : Heap)
  (frames : list (Props * Heap)) (next : Props) (colors : Colors) (h' : Heap) :
  let st := updates (hasTrainsIn props h) frames (mounted Number_toString x props h) in
  let before :=
    last (map (fun frame => hasTrainsIn (fst frame) (snd frame)) frames)
      (hasTrainsIn props h) in
  shouldFocusOnFirstTrain st = negb before
  /\ Markers.focusFlags (fst (renderTrains next st colors h'))
     = Markers.firstOnly (negb before) (List.length (h' (trainRoutePairs next))).
Proof.
  cbn zeta.
  assert (H : shouldFocusOnFirstTrain
                (updates (hasTrainsIn props h) frames (mounted Number_toString x props h))
              = negb (last (map (fun frame => hasTrainsIn (fst frame) (snd frame)) frames)
                        (hasTrainsIn props h))).
  { apply Tree.updates_focus. reflexivity. }
  split; [exact H |].
  rewrite Markers.renderTrains_sorted. cbn [fst].
  rewrite Markers.focusFlags_mapi, H. f_equal. symmetry.
  apply Permutation_length, sortedByDistance_perm.
Qed.

End Extras.

(** X4, on the example. *)
Lemma orderByDistance_twice_witness :
  Distance.numericDistances examplePositions (exampleHeap exampleArray) = true
  /\ forall a,
       snd (sortTrainRoutePairsByDistance exampleArray examplePositions
              (snd (sortTrainRoutePairsByDistance exampleArray examplePositions exampleHeap))) a
       = snd (sortTrainRoutePairsByDistance exampleArray examplePositions exampleHeap) a.
Proof.
  split; [reflexivity |].
  exact (proj2 (orderByDistance_twice exampleArray examplePositions exampleHeap eq_refl)).
Defined.

(** X7, on the example: of its two stations only [b], the closest, gets the
    ref. *)
Lemma one_first_station_witness :
  NoDup (map fst examplePositions)
  /\ List.length (filter (refAttached firstStationRef)
                    (renderStations someNumberToString (line exampleProps)
                       (prerendered exampleProps)
                       {| lines := "white"; newTrains := "green";
                          background := "darkgreen" |}))
     = 1%nat.
Proof.
  assert (Hnd : NoDup (map fst examplePositions)).
  { simpl. constructor; [intros [H | []]; discriminate |].
    constructor; [intros [] | constructor]. }
  split; [exact Hnd |].
  exact (one_first_station someNumberToString (line exampleProps) (prerendered exampleProps)
           {| lines := "white"; newTrains := "green"; background := "darkgreen" |} Hnd).
Defined.
